(** * Code-block extraction of scrapbox-userscript-std

    A shallow embedding of [src/browser/websocket/getCodeBlocks.ts]:
    the two line classifiers [extractFromCodeTitle] and
    [extractFromCodeBody], the filter test [isMatchFilter] and the
    accumulation loop of [getCodeBlocks], together with the part of the
    JavaScript runtime they rely on (strings as sequences of UTF-16 code
    units, [String.prototype.trim], [String.prototype.slice] and a
    backtracking regular-expression matcher with capture groups). *)

From Stdlib Require Import String Ascii List NArith ZArith Arith Bool Lia.
Import ListNotations.

Set Implicit Arguments.

(** ** JavaScript strings *)

Module JS.

(** A string is a sequence of UTF-16 code units. *)
Definition char := N.
Definition jsstring := list char.

(** ASCII literals of the development, as code units. *)
Definition str (s : string) : jsstring :=
  map N_of_ascii (list_ascii_of_string s).

(** LineTerminator of ECMA-262: LF, CR, LS, PS. *)
Definition isLineTerminator (c : char) : bool :=
  ((c =? 10) || (c =? 13) || (c =? 8232) || (c =? 8233))%N.

(** WhiteSpace of ECMA-262: TAB, VT, FF, ZWNBSP and the code points of
    the Unicode category Space_Separator. *)
Definition isWhiteSpace (c : char) : bool :=
  ((c =? 9) || (c =? 11) || (c =? 12) || (c =? 32) || (c =? 160)
   || (c =? 5760) || ((8192 <=? c) && (c <=? 8202))
   || (c =? 8239) || (c =? 8287) || (c =? 12288) || (c =? 65279))%N.

(** The class [\s], which is also what [trim] strips. *)
Definition isSpace (c : char) : bool := isWhiteSpace c || isLineTerminator c.

(** The class [.] without the [s] flag. *)
Definition isDot (c : char) : bool := negb (isLineTerminator c).

Fixpoint dropWhile (p : char -> bool) (s : jsstring) : jsstring :=
  match s with
  | [] => []
  | c :: s' => if p c then dropWhile p s' else s
  end.

Fixpoint takeWhile (p : char -> bool) (s : jsstring) : jsstring :=
  match s with
  | [] => []
  | c :: s' => if p c then c :: takeWhile p s' else []
  end.

(** [s.trim()] *)
Definition trim (s : jsstring) : jsstring :=
  rev (dropWhile isSpace (rev (dropWhile isSpace s))).

(** [s.slice(start)] for an integer [0 <= start]. *)
Definition slice (s : jsstring) (start : nat) : jsstring := skipn start s.

(** [s.substring(a, b)] for [a <= b]. *)
Definition substring (s : jsstring) (a b : nat) : jsstring :=
  firstn (b - a) (skipn a s).

Definition eqb (s t : jsstring) : bool :=
  if list_eq_dec N.eq_dec s t then true else false.

End JS.

Import JS.

(** ** Regular expressions

    The fragment of ECMAScript patterns that the source uses, matched by
    backtracking.  [run] returns every way a pattern can match from a
    state, in the order in which a backtracking matcher tries them, so
    the match the runtime reports is the head of that list. *)

Module Regex.

Inductive regex : Type :=
| Cls (p : char -> bool)          (* one code unit of a class *)
| Bol                             (* ^ *)
| Eol                             (* $ *)
| Seq (r1 r2 : regex)
| Star (greedy : bool) (r : regex) (* greedy and lazy star *)
| Opt (r : regex)                 (* r{0,1} *)
| Group (i : nat) (r : regex).    (* the i-th capturing parentheses *)

Definition Chr (c : ascii) : regex := Cls (N.eqb (N_of_ascii c)).
Definition Any : regex := Cls isDot.
Definition Space : regex := Cls isSpace.
(** [r+] and [r+?] *)
Definition Plus (greedy : bool) (r : regex) : regex := Seq r (Star greedy r).

(** A matcher state: the index reached in the input and the captures so
    far ([None] is [undefined]); index 0 is reserved for the whole
    match. *)
Record mstate : Type := MState { pos : nat; caps : list (option jsstring) }.

Fixpoint setCap (i : nat) (v : option jsstring) (cs : list (option jsstring))
  : list (option jsstring) :=
  match cs, i with
  | [], _ => []
  | _ :: cs', 0 => v :: cs'
  | c :: cs', S i' => c :: setCap i' v cs'
  end.

Section Run.
Variable inp : jsstring.

Definition advanced (s s' : mstate) : bool := pos s <? pos s'.

(** Iteration of a starred pattern whose single-step matcher is [m].
    An iteration that consumes nothing is refused, as in the
    RepeatMatcher of ECMA-262; every kept iteration moves forward, so
    no more than [length inp] of them can follow one another. *)
Fixpoint iter (greedy : bool) (m : mstate -> list mstate) (fuel : nat)
         (s : mstate) : list mstate :=
  match fuel with
  | 0 => [s]
  | S fuel' =>
      let more := flat_map (iter greedy m fuel') (filter (advanced s) (m s)) in
      if greedy then more ++ [s] else s :: more
  end.

Fixpoint run (r : regex) (s : mstate) : list mstate :=
  match r with
  | Cls p =>
      match nth_error inp (pos s) with
      | Some c => if p c then [MState (S (pos s)) (caps s)] else []
      | None => []
      end
  | Bol => if pos s =? 0 then [s] else []
  | Eol => if pos s =? length inp then [s] else []
  | Seq r1 r2 => flat_map (run r2) (run r1 s)
  | Star greedy r' => iter greedy (run r') (length inp) s
  | Opt r' => filter (advanced s) (run r' s) ++ [s]
  | Group i r' =>
      map (fun s' => MState (pos s')
                       (setCap i (Some (substring inp (pos s) (pos s')))
                               (caps s')))
          (run r' s)
  end.

(** One attempt of the pattern at index [start]. *)
Definition matchAt (ngroups : nat) (r : regex) (start : nat)
  : option (list (option jsstring)) :=
  match run r (MState start (repeat None (S ngroups))) with
  | [] => None
  | s :: _ => Some (setCap 0 (Some (substring inp start (pos s))) (caps s))
  end.

(** The first index from [start] on at which the pattern matches. *)
Fixpoint search (ngroups : nat) (r : regex) (n start : nat)
  : option (list (option jsstring)) :=
  match matchAt ngroups r start with
  | Some m => Some m
  | None =>
      match n with
      | 0 => None
      | S n' => search ngroups r n' (S start)
      end
  end.
End Run.

(** [s.match(r)] for a pattern [r] without the [g] flag and with
    [ngroups] capturing parentheses: the array of the whole match and
    the captures, or [None] for [null]. *)
Definition exec (ngroups : nat) (r : regex) (s : jsstring)
  : option (list (option jsstring)) :=
  search s ngroups r (length s) 0.

(** [m[i]] of a match array, for a group that took part in the match. *)
Definition group (m : list (option jsstring)) (i : nat) : jsstring :=
  match nth i m None with
  | Some g => g
  | None => []
  end.

End Regex.

Import Regex.

(** ** The source patterns

    Each pattern is quoted with blanks between its parts. *)

(** The literal "code:". *)
Definition codeColon : regex :=
  Seq (Chr "c") (Seq (Chr "o") (Seq (Chr "d") (Seq (Chr "e") (Chr ":")))).

(** Title lines:  ^  ( \s* )  code:  ( .+? )  ( \( .+ \) ){0,1}  \s*  $ *)
Definition titlePattern : regex :=
  Seq Bol
 (Seq (Group 1 (Star true Space))
 (Seq codeColon
 (Seq (Group 2 (Plus false Any))
 (Seq (Opt (Group 3 (Seq (Chr "(") (Seq (Plus true Any) (Chr ")")))))
 (Seq (Star true Space)
      Eol))))).

(** File extensions:  .+  \.  ( .* )  $ *)
Definition extPattern : regex :=
  Seq (Plus true Any) (Seq (Chr ".") (Seq (Group 1 (Star true Any)) Eol)).

(** Body lines:  ^  ( \s* )  ( .* )  $ *)
Definition bodyPattern : regex :=
  Seq Bol (Seq (Group 1 (Star true Space)) (Seq (Group 2 (Star true Any)) Eol)).

(** ** Data model *)

(** Modelled from the spec: the type [Line] comes from a dependency that
    is not part of the sources; a line exposes an identifier and its raw
    text. *)
Record Line : Type := mkLine { id : jsstring; text : jsstring }.

Module CodeTitle.
Record t : Type := mk { fileName : jsstring; lang : jsstring; indent : nat }.
End CodeTitle.

Module TinyCodeBlock.
Record t : Type := mk {
  filename : jsstring;
  lang : jsstring;
  titleLine : Line;
  bodyLines : list Line;
  nextLine : option Line          (* [None] is [null] *)
}.
End TinyCodeBlock.

(** An optional field is [None] when it is absent. *)
Record GetCodeBlocksFilter : Type := mkFilter {
  filter_filename : option jsstring;
  filter_lang : option jsstring
}.

(** The loop variable [currentCode]: a [CodeTitle] with two flags. *)
Record CurrentCode : Type := mkCurrent {
  isCodeBlock : bool;
  isCollect : bool;
  title : CodeTitle.t
}.

(** ** The line classifiers *)

Definition extractFromCodeTitle (lineText : jsstring) : option CodeTitle.t :=
  match exec 3 titlePattern lineText with
  | None => None
  | Some matched =>
      let fileName := trim (group matched 2) in
      match nth 3 matched None with
      | None =>
          match exec 1 extPattern fileName with
          | None =>
              Some (CodeTitle.mk fileName fileName (length (group matched 1)))
          | Some ext =>
              if JS.eqb (group ext 1) [] then None
              else Some (CodeTitle.mk fileName (group ext 1)
                                      (length (group matched 1)))
          end
      | Some tag =>
          Some (CodeTitle.mk fileName tag (length (group matched 1)))
      end
  end.

(** A string is truthy when it is defined and not empty. *)
Definition truthy (o : option jsstring) : bool :=
  match o with
  | Some (_ :: _) => true
  | _ => false
  end.

Definition differs (o : option jsstring) (s : jsstring) : bool :=
  match o with
  | Some t => negb (JS.eqb t s)
  | None => true
  end.

Definition isMatchFilter (codeTitle : CodeTitle.t)
           (filter : option GetCodeBlocksFilter) : bool :=
  match filter with
  | None => true
  | Some f =>
      if truthy (filter_filename f)
         && differs (filter_filename f) (CodeTitle.fileName codeTitle)
      then false
      else if truthy (filter_lang f)
              && differs (filter_lang f) (CodeTitle.lang codeTitle)
      then false
      else true
  end.

Definition extractFromCodeBody (lineText : jsstring) (titleIndent : nat)
  : option jsstring :=
  match exec 2 bodyPattern lineText with
  | None => None
  | Some matched =>
      if length matched <? 2 then None
      else
        let indent := group matched 1 in
        let body := group matched 2 in
        if length indent <=? titleIndent then None
        else Some (slice indent (length indent - titleIndent) ++ body)
  end.

(** ** The accumulation loop *)

(** The loop either goes on with a value or throws a [TypeError]
    (a property written on [undefined]). *)
Inductive result (A : Type) : Type :=
| Ok (a : A)
| TypeError.
Arguments TypeError {A}.

Definition bind {A B : Type} (r : result A) (k : A -> result B) : result B :=
  match r with
  | Ok a => k a
  | TypeError => TypeError
  end.

(** [codeBlocks[codeBlocks.length - 1]] updated in place by [f]; on an
    empty array the element is [undefined] and the update throws. *)
Fixpoint updateLast (f : TinyCodeBlock.t -> TinyCodeBlock.t)
         (codeBlocks : list TinyCodeBlock.t) : result (list TinyCodeBlock.t) :=
  match codeBlocks with
  | [] => TypeError
  | [b] => Ok [f b]
  | b :: rest => bind (updateLast f rest) (fun rest' => Ok (b :: rest'))
  end.

Definition setNextLine (line : Line) (b : TinyCodeBlock.t) : TinyCodeBlock.t :=
  TinyCodeBlock.mk (TinyCodeBlock.filename b) (TinyCodeBlock.lang b)
                   (TinyCodeBlock.titleLine b) (TinyCodeBlock.bodyLines b)
                   (Some line).

Definition pushBodyLine (line : Line) (b : TinyCodeBlock.t) : TinyCodeBlock.t :=
  TinyCodeBlock.mk (TinyCodeBlock.filename b) (TinyCodeBlock.lang b)
                   (TinyCodeBlock.titleLine b)
                   (TinyCodeBlock.bodyLines b ++ [line])
                   (TinyCodeBlock.nextLine b).

(** What the loop carries from one line to the next. *)
Record LoopState : Type := mkLoop {
  currentCode : CurrentCode;
  codeBlocks : list TinyCodeBlock.t
}.

Definition initialState : LoopState :=
  mkLoop (mkCurrent false false (CodeTitle.mk [] [] 0)) [].

Definition stopBlock (c : CurrentCode) : CurrentCode :=
  mkCurrent false (isCollect c) (title c).

(** One turn of the [for] loop. *)
Definition step (filter : option GetCodeBlocksFilter) (st : LoopState)
           (line : Line) : result LoopState :=
  let cur := currentCode st in
  if isCodeBlock cur then
    match extractFromCodeBody (text line) (CodeTitle.indent (title cur)) with
    | None =>
        bind (if isCollect cur
              then updateLast (setNextLine line) (codeBlocks st)
              else Ok (codeBlocks st))
             (fun blocks => Ok (mkLoop (stopBlock cur) blocks))
    | Some _ =>
        if negb (isCollect cur) then Ok st
        else bind (updateLast (pushBodyLine line) (codeBlocks st))
                  (fun blocks => Ok (mkLoop cur blocks))
    end
  else
    match extractFromCodeTitle (text line) with
    | None => Ok (mkLoop (stopBlock cur) (codeBlocks st))
    | Some matched =>
        let cur' := mkCurrent true (isMatchFilter matched filter) matched in
        if negb (isCollect cur') then Ok (mkLoop cur' (codeBlocks st))
        else Ok (mkLoop cur'
                   (codeBlocks st ++
                    [TinyCodeBlock.mk (CodeTitle.fileName (title cur'))
                                      (CodeTitle.lang (title cur'))
                                      line [] None]))
    end.

Fixpoint loop (filter : option GetCodeBlocksFilter) (st : LoopState)
         (lines : list Line) : result LoopState :=
  match lines with
  | [] => Ok st
  | line :: rest => bind (step filter st line) (fun st' => loop filter st' rest)
  end.

(** The two shapes of [target]. *)
Inductive Target : Type :=
| Page (project title : jsstring)
| Lines (lines : list Line).

Section GetCodeBlocks.
(** Modelled from the spec: [pull] lives in a module that is not part
    of the sources; it resolves a page to its lines before parsing
    starts, or fails. *)
Variable pull : jsstring -> jsstring -> option (list Line).

Definition getLines (target : Target) : option (list Line) :=
  match target with
  | Lines lines => Some lines
  | Page project title => pull project title
  end.

(** [None] is a rejection of the line source; inside, the result of the
    loop. *)
Definition getCodeBlocks (target : Target)
           (filter : option GetCodeBlocksFilter)
  : option (result (list TinyCodeBlock.t)) :=
  match getLines target with
  | None => None
  | Some lines =>
      Some (bind (loop filter initialState lines)
                 (fun st => Ok (codeBlocks st)))
  end.
End GetCodeBlocks.

(** * Line lookup of [src/browser/dom/node.ts]

    The functions that find a line of the open page from a line number,
    a line id or a DOM element.  A line number is modelled as an
    integer: on a number that is not an integer the array read gives
    [undefined], as it does here on an integer out of range. *)

Module Node.

(** A DOM element as far as these functions look at it: its class
    list, its id and its parent element, if it has one. *)
Inductive HTMLElement : Type :=
| Detached (classes : list jsstring) (i : jsstring)
| Attached (classes : list jsstring) (i : jsstring)
           (parentElement : HTMLElement).

Definition classList (e : HTMLElement) : list jsstring :=
  match e with Detached c _ | Attached c _ _ => c end.

Definition elementId (e : HTMLElement) : jsstring :=
  match e with Detached _ i | Attached _ i _ => i end.

(** [classList.contains(name)] *)
Definition contains (classes : list jsstring) (name : jsstring) : bool :=
  existsb (JS.eqb name) classes.

(** [value.closest(".line")]: the element itself or its nearest ancestor
    with the class "line". *)
Fixpoint closestLine (e : HTMLElement) : option HTMLElement :=
  match e with
  | Detached classes _ =>
      if contains classes (str "line") then Some e else None
  | Attached classes _ parent =>
      if contains classes (str "line") then Some e else closestLine parent
  end.

(** The argument [value]: [undefined] or [null], a number, a string or
    an element. *)
Inductive Value : Type :=
| VNone
| VNumber (n : Z)
| VString (s : jsstring)
| VElement (e : HTMLElement).

(** [s.startsWith("L")] *)
Definition startsWithL (s : jsstring) : bool :=
  match s with
  | c :: _ => (c =? 76)%N
  | [] => false
  end.

(** [array[n]] for an integer [n]. *)
Definition index (lines : list Line) (n : Z) : option Line :=
  if (n <? 0)%Z then None else nth_error lines (Z.to_nat n).

(** [i ? yes : no] for a string [i] that may be [undefined]: the
    empty string and [undefined] are falsy. *)
Definition ifTruthy {A : Type} (i : option jsstring)
           (yes : jsstring -> A) (no : A) : A :=
  match i with
  | Some (c :: r) => yes (c :: r)
  | _ => no
  end.

(** [array.findIndex(f)] *)
Fixpoint findIndexFrom (f : Line -> bool) (lines : list Line) (i : Z) : Z :=
  match lines with
  | [] => (-1)%Z
  | l :: rest => if f l then i else findIndexFrom f rest (i + 1)%Z
  end.

Definition findIndex (f : Line -> bool) (lines : list Line) : Z :=
  findIndexFrom f lines 0%Z.

Section Page.
(** The value of [scrapbox.Page.lines]: [None] when it is not an array.
    [ensureArray], of a module that is not part of the sources, then
    throws. *)
Variable Page_lines : option (list Line).

Definition getLines : result (list Line) :=
  match Page_lines with
  | Some lines => Ok lines
  | None => TypeError
  end.

(** [getLine] on a number: [getLines()[value]]. *)
Definition getLineByNumber (n : Z) : result (option Line) :=
  bind getLines (fun lines => Ok (index lines n)).

Definition getLineId (value : Value) : result (option jsstring) :=
  match value with
  | VNone => Ok None
  | VNumber n => bind (getLineByNumber n) (fun l => Ok (option_map id l))
  | VString s => Ok (Some (if startsWithL s then slice s 1 else s))
  | VElement e =>
      if contains (classList e) (str "line")
      then Ok (Some (slice (elementId e) 1))
      else match closestLine e with
           | Some line => Ok (Some (slice (elementId line) 1))
           | None => Ok None
           end
  end.

Definition sameId (i : jsstring) (line : Line) : bool := JS.eqb (id line) i.

Definition getLineNo (value : Value) : result (option Z) :=
  match value with
  | VNone => Ok None
  | VNumber n => Ok (Some n)
  | _ =>
      bind (getLineId value) (fun i =>
        ifTruthy i
          (fun i' => bind getLines (fun lines =>
                       Ok (Some (findIndex (sameId i') lines))))
          (Ok (Some (-1)%Z)))
  end.

Definition getLine (value : Value) : result (option Line) :=
  match value with
  | VNone => Ok None
  | VNumber n => getLineByNumber n
  | _ =>
      bind (getLineId value) (fun i =>
        ifTruthy i
          (fun i' => bind getLines (fun lines =>
                       Ok (find (sameId i') lines)))
          (Ok None))
  end.

Definition getLineCount : result nat :=
  bind getLines (fun lines => Ok (length lines)).

Definition getNextLine (value : Value) : result (option Line) :=
  bind (getLineNo value) (fun i =>
    match i with
    | None => Ok None
    | Some n => getLine (VNumber (n + 1))
    end).

Definition getPrevLine (value : Value) : result (option Line) :=
  bind (getLineNo value) (fun i =>
    match i with
    | None => Ok None
    | Some n => getLine (VNumber (n - 1))
    end).
End Page.

End Node.

(** * Vocabulary of the properties *)

(** ** Matching *)

(** Length of the longest run of units of class [p] from index [k] of
    [inp]. *)
Definition runLen (inp : jsstring) (p : char -> bool) (k : nat) : nat :=
  length (takeWhile p (skipn k inp)).

(** The order in which a starred class tries the ends of its run. *)
Definition order (greedy : bool) (l : list nat) : list nat :=
  if greedy then rev l else l.

(** [first inp r s s']: from [s], the first way of matching [r] on
    [inp] ends in [s']. *)
Definition first (inp : jsstring) (r : regex) (s s' : mstate) : Prop :=
  exists l, run inp r s = s' :: l.

Definition dot : char := 46%N.

(** ** Lines and blocks *)

(** Leading-white-space length of a text. *)
Definition wsLen (t : jsstring) : nat := length (takeWhile isSpace t).

(** [b] was opened by a title line that parses to [ct]. *)
Definition opens (b : TinyCodeBlock.t) (ct : CodeTitle.t) : Prop :=
  extractFromCodeTitle (text (TinyCodeBlock.titleLine b)) = Some ct /\
  TinyCodeBlock.filename b = CodeTitle.fileName ct /\
  TinyCodeBlock.lang b = CodeTitle.lang ct.

(** Every line of [body] is classified as a body line under the title
    indentation [T]. *)
Definition bodyOf (T : nat) (body : list Line) : Prop :=
  Forall (fun l => extractFromCodeBody (text l) T <> None) body.

(** [closedBlocks ls bs]: the blocks [bs] lie in [ls] one after the
    other, each with its title line, its body lines and the line that
    ended it. *)
Inductive closedBlocks : list Line -> list TinyCodeBlock.t -> Prop :=
| closed_nil ls : closedBlocks ls []
| closed_snoc pre bs b ct l rest :
    closedBlocks pre bs ->
    opens b ct ->
    bodyOf (CodeTitle.indent ct) (TinyCodeBlock.bodyLines b) ->
    TinyCodeBlock.nextLine b = Some l ->
    extractFromCodeBody (text l) (CodeTitle.indent ct) = None ->
    closedBlocks
      (pre ++ TinyCodeBlock.titleLine b :: TinyCodeBlock.bodyLines b ++ l :: rest)
      (bs ++ [b]).

(** The last block is still open: it ends the lines read so far. *)
Definition openLast (pre : list Line) (ct : CodeTitle.t)
           (blocks : list TinyCodeBlock.t) : Prop :=
  exists bs b p1,
    blocks = bs ++ [b] /\
    pre = p1 ++ TinyCodeBlock.titleLine b :: TinyCodeBlock.bodyLines b /\
    closedBlocks p1 bs /\
    opens b ct /\
    bodyOf (CodeTitle.indent ct) (TinyCodeBlock.bodyLines b) /\
    TinyCodeBlock.nextLine b = None.

(** The loop invariant, after the lines [pre]. *)
Definition invariant (pre : list Line) (st : LoopState) : Prop :=
  let cur := currentCode st in
  if isCodeBlock cur && isCollect cur
  then openLast pre (title cur) (codeBlocks st)
  else closedBlocks pre (codeBlocks st).

(** A block as the data model describes it, inside the input [lines]:
    the title line, then the body lines, all indented deeper than the
    title, then either the line that ended the block or the end of the
    input. *)
Definition wellFormedBlock (lines : list Line) (b : TinyCodeBlock.t) : Prop :=
  let T := wsLen (text (TinyCodeBlock.titleLine b)) in
  exists p1 post,
    lines = p1 ++ TinyCodeBlock.titleLine b :: TinyCodeBlock.bodyLines b ++ post /\
    Forall (fun l => T < wsLen (text l)) (TinyCodeBlock.bodyLines b) /\
    match TinyCodeBlock.nextLine b with
    | Some l => exists post', post = l :: post' /\
                              extractFromCodeBody (text l) T = None
    | None => post = []
    end.


(** The filter test on the file name and language of a block. *)
Definition matchesBlock (filter : option GetCodeBlocksFilter)
           (b : TinyCodeBlock.t) : bool :=
  isMatchFilter
    (CodeTitle.mk (TinyCodeBlock.filename b) (TinyCodeBlock.lang b) 0) filter.

(** The run with a filter keeps in step with the run without one: same
    place in the state machine, and the blocks collected are those of
    the unfiltered run that pass the filter. *)
Definition sim (filter : option GetCodeBlocksFilter) (sf su : LoopState)
  : Prop :=
  isCodeBlock (currentCode sf) = isCodeBlock (currentCode su) /\
  title (currentCode sf) = title (currentCode su) /\
  codeBlocks sf = List.filter (matchesBlock filter) (codeBlocks su) /\
  (isCodeBlock (currentCode su) = true ->
   isCollect (currentCode su) = true /\
   isCollect (currentCode sf) = isMatchFilter (title (currentCode su)) filter /\
   exists bs b,
     codeBlocks su = bs ++ [b] /\
     TinyCodeBlock.filename b = CodeTitle.fileName (title (currentCode su)) /\
     TinyCodeBlock.lang b = CodeTitle.lang (title (currentCode su))).

(** ** The claims in the words of the specification *)


(** The part of a string after its last dot ([None] without a dot). *)
Fixpoint afterLastDot (s : jsstring) : option jsstring :=
  match s with
  | [] => None
  | c :: s' =>
      match afterLastDot s' with
      | Some e => Some e
      | None => if (c =? dot)%N then Some s' else None
      end
  end.

(** The language of a title without a tag as the specification words
    it; the outer [None] is a rejected title. *)
Definition titleLang_spec (fileName : jsstring) : option jsstring :=
  match afterLastDot fileName with
  | None => Some fileName
  | Some [] => None
  | Some e => Some e
  end.

(** The filter as the specification words it: an exact-match test in
    which each condition that is present must match. *)
Definition exactCondition (condition : option jsstring) (v : jsstring)
  : bool :=
  match condition with
  | Some s => JS.eqb s v
  | None => true
  end.

Definition exactMatch (filter : option GetCodeBlocksFilter)
           (b : TinyCodeBlock.t) : bool :=
  match filter with
  | None => true
  | Some f =>
      exactCondition (filter_filename f) (TinyCodeBlock.filename b)
      && exactCondition (filter_lang f) (TinyCodeBlock.lang b)
  end.

(** The same test with the one change the code asks for: a condition
    that is the empty string imposes no constraint, like an absent
    one. *)
Definition nonEmptyCondition (condition : option jsstring) (v : jsstring)
  : bool :=
  match condition with
  | Some (c :: r) => JS.eqb (c :: r) v
  | _ => true
  end.

Definition nonEmptyMatch (filter : option GetCodeBlocksFilter)
           (b : TinyCodeBlock.t) : bool :=
  match filter with
  | None => true
  | Some f =>
      nonEmptyCondition (filter_filename f) (TinyCodeBlock.filename b)
      && nonEmptyCondition (filter_lang f) (TinyCodeBlock.lang b)
  end.

(** ** Inputs of the scenarios *)

Definition ln (i s : string) : Line := mkLine (str i) (str s).

(** A line source that resolves no page. *)
Definition noPull (project title : jsstring) : option (list Line) := None.

Definition scenario1 : list Line :=
  [ln "1" "code:a.txt"; ln "2" "  hello"; ln "3" "  world"; ln "4" "done"].

Definition scenario2 : list Line :=
  [ln "1" "  code:b(js)"; ln "2" "    x=1"; ln "3" "  y"].

Definition scenario3 : list Line := [ln "1" "code:c."; ln "2" "text"].

Definition scenario4 : list Line :=
  [ln "1" "code:d.py"; ln "2" "code:e.py"; ln "3" "  z"].

Definition twoBlocks : list Line :=
  [ln "1" "code:a.js"; ln "2" " x"; ln "3" "end"; ln "4" "code:b.py"; ln "5" " y"].

Definition oneBlock : list Line := [ln "1" "code:a.js"; ln "2" " x"].


Definition langFilter (s : string) : option GetCodeBlocksFilter :=
  Some (mkFilter None (Some (str s))).

Definition bodyTexts (b : TinyCodeBlock.t) : list jsstring :=
  map text (TinyCodeBlock.bodyLines b).

(** ** Vocabulary of the further properties *)

(** The lines a block takes up in the input: its title line, its body
    lines and, when there is one, the line that ended it. *)
Definition blockSpan (b : TinyCodeBlock.t) : nat :=
  1 + length (TinyCodeBlock.bodyLines b)
  + match TinyCodeBlock.nextLine b with Some _ => 1 | None => 0 end.

(** [b'] is [b] read further: same title, the body lines of [b] and
    maybe more; a block that has its next line does not change. *)
Definition extendsBlock (b b' : TinyCodeBlock.t) : Prop :=
  TinyCodeBlock.filename b' = TinyCodeBlock.filename b /\
  TinyCodeBlock.lang b' = TinyCodeBlock.lang b /\
  TinyCodeBlock.titleLine b' = TinyCodeBlock.titleLine b /\
  (exists more, TinyCodeBlock.bodyLines b' = TinyCodeBlock.bodyLines b ++ more) /\
  (TinyCodeBlock.nextLine b <> None -> b' = b).

(** [B'] is the output [B] read further: no block is lost, every block
    but the last one is unchanged and the last one is read further. *)
Definition extendsOutput (B B' : list TinyCodeBlock.t) : Prop :=
  length B <= length B' /\
  forall i b, nth_error B i = Some b ->
    exists b', nth_error B' i = Some b' /\ extendsBlock b b' /\
               (S i < length B -> b' = b).

(** * Properties *)

Lemma eqb_eq (s t : jsstring) : JS.eqb s t = true <-> s = t.
Proof.
  unfold JS.eqb. destruct (list_eq_dec N.eq_dec s t); split; congruence.
Qed.

(** ** Lists and strings *)

Section ListFacts.
Context {A B : Type}.

Lemma skipn_nth_error_cons (l : list A) (k : nat) (c : A) :
  nth_error l k = Some c -> skipn k l = c :: skipn (S k) l.
Proof.
  revert k. induction l as [|a l IH]; intros [|k] H; simpl in *; try discriminate.
  - injection H as ->. reflexivity.
  - rewrite (IH _ H). destruct l; reflexivity.
Qed.

Lemma nth_error_skipn_hd (l : list A) (k : nat) :
  nth_error l k = hd_error (skipn k l).
Proof.
  revert k. induction l as [|a l IH]; intros [|k]; simpl; auto.
Qed.

Lemma flat_map_all_nil (f : A -> list B) (l : list A) :
  (forall x, In x l -> f x = []) -> flat_map f l = [].
Proof.
  induction l as [|a l IH]; intros H; simpl; auto.
  rewrite (H a (or_introl eq_refl)), IH; auto.
  intros x Hx. apply H. now right.
Qed.

Lemma flat_map_skip (f : A -> list B) (l1 l2 : list A) (x : A) :
  (forall y, In y l1 -> f y = []) ->
  flat_map f (l1 ++ x :: l2) = f x ++ flat_map f l2.
Proof.
  intros H. rewrite flat_map_app, (flat_map_all_nil _ _ H). reflexivity.
Qed.

Lemma in_skipn_in (l : list A) (n : nat) (x : A) :
  In x (skipn n l) -> In x l.
Proof.
  revert n. induction l as [|a l IH]; intros [|n] H; simpl in *; auto.
  right. eapply IH; eauto.
Qed.

Lemma firstn_succ_snoc (l : list A) (n : nat) (x : A) :
  nth_error l n = Some x -> firstn (S n) l = firstn n l ++ [x].
Proof.
  revert n. induction l as [|a l IH]; intros [|n] H; simpl in *;
    try discriminate.
  - now injection H as ->.
  - f_equal. now apply IH.
Qed.

Lemma list_nil_no_member (l : list A) : (forall x, ~ In x l) -> l = [].
Proof.
  destruct l as [|a l]; auto. intros H. destruct (H a). now left.
Qed.
End ListFacts.

Section WhileFacts.
Variable p : char -> bool.

Lemma takeWhile_dropWhile (s : jsstring) :
  takeWhile p s ++ dropWhile p s = s.
Proof.
  induction s as [|c s IH]; simpl; auto.
  destruct (p c); simpl; congruence.
Qed.

Lemma takeWhile_Forall (s : jsstring) :
  Forall (fun c => p c = true) (takeWhile p s).
Proof.
  induction s as [|c s IH]; simpl; auto.
  destruct (p c) eqn:E; auto.
Qed.

Lemma dropWhile_hd (s : jsstring) (c : char) :
  hd_error (dropWhile p s) = Some c -> p c = false.
Proof.
  induction s as [|a s IH]; simpl; try discriminate.
  destruct (p a) eqn:E; auto. simpl. congruence.
Qed.

Lemma takeWhile_all (s : jsstring) :
  Forall (fun c => p c = true) s -> takeWhile p s = s.
Proof.
  induction 1 as [|c s Hc _ IH]; simpl; auto. rewrite Hc, IH. reflexivity.
Qed.

Lemma takeWhile_app_stop (s t : jsstring) :
  Forall (fun c => p c = true) s ->
  (forall c, hd_error t = Some c -> p c = false) ->
  takeWhile p (s ++ t) = s.
Proof.
  intros Hs Ht. induction Hs as [|c s Hc _ IH]; simpl.
  - destruct t as [|c t]; simpl; auto. rewrite (Ht c eq_refl). reflexivity.
  - rewrite Hc, IH. reflexivity.
Qed.

Lemma dropWhile_app_stop (s t : jsstring) :
  Forall (fun c => p c = true) s ->
  (forall c, hd_error t = Some c -> p c = false) ->
  dropWhile p (s ++ t) = t.
Proof.
  intros Hs Ht. induction Hs as [|c s Hc _ IH]; simpl.
  - destruct t as [|c t]; simpl; auto. rewrite (Ht c eq_refl). reflexivity.
  - rewrite Hc, IH. reflexivity.
Qed.

Lemma takeWhile_length_le (s : jsstring) : length (takeWhile p s) <= length s.
Proof.
  induction s as [|c s IH]; simpl; auto. destruct (p c); simpl; lia.
Qed.

(** A prefix of a string all of whose units are in the class is a
    prefix of the longest such prefix. *)
Lemma firstn_Forall_takeWhile (s : jsstring) (n : nat) :
  n <= length s ->
  Forall (fun c => p c = true) (firstn n s) ->
  n <= length (takeWhile p s).
Proof.
  revert n. induction s as [|c s IH]; intros [|n] Hn H; simpl in *; try lia.
  inversion H as [|? ? Hc Hs]; subst. rewrite Hc. simpl.
  apply le_n_S, IH; auto; lia.
Qed.

Lemma firstn_takeWhile_Forall (s : jsstring) (n : nat) :
  n <= length (takeWhile p s) ->
  Forall (fun c => p c = true) (firstn n s).
Proof.
  revert n. induction s as [|c s IH]; intros [|n] Hn; simpl in *; auto.
  destruct (p c) eqn:E; simpl in *; try lia.
  constructor; auto. apply IH. lia.
Qed.
End WhileFacts.

(** ** The matcher on the shapes of pattern the source uses *)

Section RunFacts.
Variable inp : jsstring.

Lemma runLen_step p k c :
  nth_error inp k = Some c -> p c = true -> runLen inp p k = S (runLen inp p (S k)).
Proof.
  intros Hn Hp. unfold runLen. rewrite (skipn_nth_error_cons _ _ Hn).
  simpl. rewrite Hp. reflexivity.
Qed.

Lemma runLen_stop p k :
  (forall c, nth_error inp k = Some c -> p c = false) -> runLen inp p k = 0.
Proof.
  intros H. unfold runLen. rewrite nth_error_skipn_hd in H.
  destruct (skipn k inp) as [|c r]; simpl in *; auto.
  rewrite (H c eq_refl). reflexivity.
Qed.

Lemma runLen_bound p k : runLen inp p k <= length inp - k.
Proof.
  unfold runLen. etransitivity; [apply takeWhile_length_le|].
  rewrite length_skipn. lia.
Qed.

Lemma mstate_eta (s : mstate) : MState (pos s) (caps s) = s.
Proof. destruct s; reflexivity. Qed.

Lemma iter_cls g p fuel s :
  runLen inp p (pos s) <= fuel ->
  iter g (run inp (Cls p)) fuel s =
  map (fun j => MState j (caps s))
      (order g (seq (pos s) (S (runLen inp p (pos s))))).
Proof.
  revert s. induction fuel as [|fuel IH]; intros s Hf.
  - assert (runLen inp p (pos s) = 0) as -> by lia.
    destruct g; simpl; now rewrite mstate_eta.
  - cbn [iter].
    destruct (nth_error inp (pos s)) as [c|] eqn:Hn;
      [destruct (p c) eqn:Hp|].
    + assert (run inp (Cls p) s = [MState (S (pos s)) (caps s)]) as ->
        by (cbn [run]; now rewrite Hn, Hp).
      rewrite (runLen_step _ _ Hn Hp) in *.
      cbn [filter]. unfold advanced. cbn [pos].
      replace (pos s <? S (pos s)) with true
        by (symmetry; apply Nat.ltb_lt; lia).
      cbn [flat_map]. rewrite app_nil_r, IH by (cbn [pos]; lia).
      cbn [pos caps].
      rewrite <- (cons_seq (S (runLen inp p (S (pos s)))) (pos s)).
      destruct g; unfold order.
      * cbn [rev]. rewrite map_app. cbn [map]. now rewrite mstate_eta.
      * cbn [map]. now rewrite mstate_eta.
    + assert (run inp (Cls p) s = []) as ->
        by (cbn [run]; now rewrite Hn, Hp).
      rewrite runLen_stop by (intros c' Hc'; congruence).
      destruct g; simpl; now rewrite mstate_eta.
    + assert (run inp (Cls p) s = []) as ->
        by (cbn [run]; now rewrite Hn).
      rewrite runLen_stop by (intros c' Hc'; congruence).
      destruct g; simpl; now rewrite mstate_eta.
Qed.

(** A starred class tries the ends of its run, the longest first when
    greedy and the shortest first when lazy. *)
Lemma run_star_cls g p s :
  run inp (Star g (Cls p)) s =
  map (fun j => MState j (caps s))
      (order g (seq (pos s) (S (runLen inp p (pos s))))).
Proof.
  cbn [run]. apply iter_cls. pose proof (runLen_bound p (pos s)). lia.
Qed.
End RunFacts.

Section RunMembership.
Variable inp : jsstring.

Lemma in_run_cls p s s' :
  In s' (run inp (Cls p) s) <->
  exists c, nth_error inp (pos s) = Some c /\ p c = true /\
            s' = MState (S (pos s)) (caps s).
Proof.
  cbn [run]. destruct (nth_error inp (pos s)) as [c|].
  - destruct (p c) eqn:Hp; simpl; split.
    + intros [<-|[]]. now exists c.
    + intros (c' & Hc & _ & ->). now left.
    + intros [].
    + intros (c' & Hc & Hp' & _). congruence.
  - simpl. split; [intros []|]. intros (c & Hc & _). discriminate.
Qed.

Lemma in_run_seq r1 r2 s s' :
  In s' (run inp (Seq r1 r2) s) <->
  exists s1, In s1 (run inp r1 s) /\ In s' (run inp r2 s1).
Proof. cbn [run]. apply in_flat_map. Qed.

Lemma in_run_group i r s s' :
  In s' (run inp (Group i r) s) <->
  exists s1, In s1 (run inp r s) /\
             s' = MState (pos s1)
                    (setCap i (Some (substring inp (pos s) (pos s1)))
                            (caps s1)).
Proof.
  cbn [run]. rewrite in_map_iff. split; intros (s1 & H1 & H2); eauto.
Qed.

Lemma in_run_opt r s s' :
  In s' (run inp (Opt r) s) <->
  (In s' (run inp r s) /\ pos s < pos s') \/ s' = s.
Proof.
  cbn [run]. rewrite in_app_iff, filter_In. unfold advanced.
  rewrite Nat.ltb_lt. simpl. intuition auto.
Qed.

Lemma in_run_bol s s' : In s' (run inp Bol s) <-> pos s = 0 /\ s' = s.
Proof.
  cbn [run]. destruct (Nat.eqb_spec (pos s) 0); simpl; intuition auto.
Qed.

Lemma in_run_eol s s' :
  In s' (run inp Eol s) <-> pos s = length inp /\ s' = s.
Proof.
  cbn [run]. destruct (Nat.eqb_spec (pos s) (length inp)); simpl;
    intuition auto.
Qed.

Lemma in_run_star_cls g p s s' :
  In s' (run inp (Star g (Cls p)) s) <->
  pos s <= pos s' <= pos s + runLen inp p (pos s) /\ caps s' = caps s.
Proof.
  rewrite run_star_cls, in_map_iff. split.
  - intros (j & <- & Hj). cbn [pos caps].
    assert (In j (seq (pos s) (S (runLen inp p (pos s))))) as Hin
      by (destruct g; [now apply in_rev|exact Hj]).
    apply in_seq in Hin. split; auto. lia.
  - intros [Hp Hc]. exists (pos s'). split.
    + rewrite <- Hc. apply mstate_eta.
    + assert (In (pos s') (seq (pos s) (S (runLen inp p (pos s))))) as Hin
        by (apply in_seq; lia).
      destruct g; [now apply in_rev in Hin|exact Hin].
Qed.

(** What lies inside and right after a run. *)
Lemma runLen_inside p k j :
  k <= j < k + runLen inp p k ->
  exists c, nth_error inp j = Some c /\ p c = true.
Proof.
  unfold runLen. intros Hj.
  pose proof (takeWhile_dropWhile p (skipn k inp)) as Hsplit.
  pose proof (takeWhile_Forall p (skipn k inp)) as Hall.
  destruct (nth_error (takeWhile p (skipn k inp)) (j - k)) as [c|] eqn:Hc.
  - exists c. split.
    + replace j with (k + (j - k)) by lia.
      rewrite <- nth_error_skipn, <- Hsplit.
      rewrite nth_error_app1 by lia. exact Hc.
    + rewrite Forall_forall in Hall. apply Hall.
      eapply nth_error_In; eauto.
  - apply nth_error_None in Hc. lia.
Qed.

Lemma runLen_after p k c :
  nth_error inp (k + runLen inp p k) = Some c -> p c = false.
Proof.
  unfold runLen. rewrite <- nth_error_skipn.
  set (u := skipn k inp). intros Hc.
  assert (nth_error (takeWhile p u ++ dropWhile p u)
                    (length (takeWhile p u)) = Some c) as Hc'
    by now rewrite takeWhile_dropWhile.
  rewrite nth_error_app2, Nat.sub_diag in Hc' by lia.
  apply (dropWhile_hd p u).
  destruct (dropWhile p u); simpl in *; congruence.
Qed.

Lemma runLen_Forall p k j :
  k <= j <= k + runLen inp p k ->
  Forall (fun c => p c = true) (substring inp k j).
Proof.
  intros Hj. unfold substring. apply firstn_takeWhile_Forall.
  unfold runLen in Hj. lia.
Qed.

Lemma runLen_max p k j :
  k <= j <= length inp ->
  Forall (fun c => p c = true) (substring inp k j) ->
  j <= k + runLen inp p k.
Proof.
  intros Hj H. unfold substring in H.
  apply firstn_Forall_takeWhile in H; [unfold runLen; lia|].
  rewrite length_skipn. lia.
Qed.

Lemma substring_full : substring inp 0 (length inp) = inp.
Proof. unfold substring. rewrite Nat.sub_0_r. apply firstn_all. Qed.

Lemma substring_cons k j c :
  nth_error inp k = Some c -> k < j ->
  substring inp k j = c :: substring inp (S k) j.
Proof.
  intros Hc Hj. unfold substring.
  rewrite (skipn_nth_error_cons _ _ Hc).
  replace (j - k) with (S (j - S k)) by lia. reflexivity.
Qed.

Lemma substring_snoc k q c :
  nth_error inp q = Some c -> k <= q ->
  substring inp k (S q) = substring inp k q ++ [c].
Proof.
  intros Hc Hq. unfold substring.
  replace (S q - k) with (S (q - k)) by lia.
  apply firstn_succ_snoc. rewrite nth_error_skipn.
  now replace (k + (q - k)) with q by lia.
Qed.

(** A pattern anchored at the start only matches from index 0. *)
Lemma search_bol ngroups r n start :
  search inp ngroups (Seq Bol r) n (S start) = None.
Proof.
  revert start. induction n as [|n IH]; intros start; simpl; auto.
Qed.

Lemma exec_bol ngroups r :
  exec ngroups (Seq Bol r) inp = matchAt inp ngroups (Seq Bol r) 0.
Proof.
  unfold exec. destruct (length inp) as [|n]; cbn [search];
    destruct (matchAt inp ngroups (Seq Bol r) 0); auto.
  apply search_bol.
Qed.

Lemma search_none ngroups r n start :
  (forall k, run inp r (MState k (repeat None (S ngroups))) = []) ->
  search inp ngroups r n start = None.
Proof.
  intros H. revert start. induction n as [|n IH]; intros start;
    cbn [search]; unfold matchAt; rewrite H; auto.
Qed.

Lemma search_first ngroups r n m :
  matchAt inp ngroups r 0 = Some m -> search inp ngroups r n 0 = Some m.
Proof. intros H. destruct n; cbn [search]; now rewrite H. Qed.
End RunMembership.

(** ** The first match *)

Section FirstMatch.
Variable inp : jsstring.

Lemma first_seq r1 r2 s s1 s2 :
  first inp r1 s s1 -> first inp r2 s1 s2 -> first inp (Seq r1 r2) s s2.
Proof.
  intros [l1 H1] [l2 H2]. unfold first. cbn [run].
  rewrite H1. cbn [flat_map]. rewrite H2. simpl. eauto.
Qed.

(** Backtracking: the alternatives of [r1] that make [r2] fail are
    passed over. *)
Lemma first_seq_skip r1 r2 s l1 s1 l2 s2 :
  run inp r1 s = l1 ++ s1 :: l2 ->
  (forall x, In x l1 -> run inp r2 x = []) ->
  first inp r2 s1 s2 -> first inp (Seq r1 r2) s s2.
Proof.
  intros H1 Hskip [l H2]. unfold first. cbn [run].
  rewrite H1, flat_map_skip, H2 by exact Hskip. simpl. eauto.
Qed.

Lemma first_group i r s s1 :
  first inp r s s1 ->
  first inp (Group i r) s
        (MState (pos s1)
                (setCap i (Some (substring inp (pos s) (pos s1))) (caps s1))).
Proof. intros [l H]. unfold first. cbn [run]. rewrite H. simpl. eauto. Qed.

Lemma first_star_greedy p s :
  first inp (Star true (Cls p)) s
        (MState (pos s + runLen inp p (pos s)) (caps s)).
Proof.
  unfold first. rewrite run_star_cls. unfold order.
  rewrite seq_S, rev_app_distr. simpl. eauto.
Qed.

Lemma first_cls p s c :
  nth_error inp (pos s) = Some c -> p c = true ->
  first inp (Cls p) s (MState (S (pos s)) (caps s)).
Proof. intros Hc Hp. unfold first. cbn [run]. rewrite Hc, Hp. eauto. Qed.

Lemma first_bol s : pos s = 0 -> first inp Bol s s.
Proof. intros H. unfold first. cbn [run]. rewrite H. simpl. eauto. Qed.

Lemma first_eol s : pos s = length inp -> first inp Eol s s.
Proof.
  intros H. unfold first. cbn [run]. rewrite H, Nat.eqb_refl. eauto.
Qed.

Lemma first_matchAt ngroups r start s :
  first inp r (MState start (repeat None (S ngroups))) s ->
  matchAt inp ngroups r start =
  Some (setCap 0 (Some (substring inp start (pos s))) (caps s)).
Proof. intros [l H]. unfold matchAt. now rewrite H. Qed.

Lemma no_match_matchAt ngroups r start :
  (forall s, ~ In s (run inp r (MState start (repeat None (S ngroups))))) ->
  matchAt inp ngroups r start = None.
Proof.
  intros H. unfold matchAt. now rewrite (list_nil_no_member _ H).
Qed.

Lemma matchAt_some_in ngroups r start m :
  matchAt inp ngroups r start = Some m ->
  exists s, In s (run inp r (MState start (repeat None (S ngroups)))) /\
            m = setCap 0 (Some (substring inp start (pos s))) (caps s).
Proof.
  unfold matchAt.
  destruct (run inp r (MState start (repeat None (S ngroups)))) as [|s l];
    intros H; inversion H. exists s. split; [now left|reflexivity].
Qed.
End FirstMatch.

(** ** The body pattern *)

Lemma runLen_0 (t : jsstring) (p : char -> bool) :
  runLen t p 0 = length (takeWhile p t).
Proof. reflexivity. Qed.

Lemma firstn_takeWhile_length (p : char -> bool) (t : jsstring) :
  firstn (length (takeWhile p t)) t = takeWhile p t.
Proof.
  rewrite <- (takeWhile_dropWhile p t) at 2.
  rewrite firstn_app, Nat.sub_diag, firstn_all. simpl. apply app_nil_r.
Qed.

Lemma skipn_takeWhile_length (p : char -> bool) (t : jsstring) :
  skipn (length (takeWhile p t)) t = dropWhile p t.
Proof.
  rewrite <- (takeWhile_dropWhile p t) at 2.
  rewrite skipn_app, Nat.sub_diag, skipn_all. reflexivity.
Qed.

Lemma forallb_isDot_Forall (s : jsstring) :
  forallb isDot s = true <-> Forall (fun c => isDot c = true) s.
Proof. rewrite forallb_forall, Forall_forall. reflexivity. Qed.

(** The body pattern matches exactly the texts that have no line
    terminator after their leading white space, and then captures the
    leading white space and the rest. *)
Lemma exec_bodyPattern (t : jsstring) :
  exec 2 bodyPattern t =
  if forallb isDot (dropWhile isSpace t)
  then Some [Some t; Some (takeWhile isSpace t); Some (dropWhile isSpace t)]
  else None.
Proof.
  unfold bodyPattern. rewrite exec_bol.
  set (k := length (takeWhile isSpace t)).
  assert (Hk : k <= length t) by apply takeWhile_length_le.
  destruct (forallb isDot (dropWhile isSpace t)) eqn:Hdot.
  - apply forallb_isDot_Forall in Hdot.
    assert (Hn : runLen t isDot k = length (dropWhile isSpace t)).
    { unfold runLen, k. rewrite skipn_takeWhile_length.
      now rewrite takeWhile_all. }
    assert (Hlen : k + length (dropWhile isSpace t) = length t).
    { unfold k. rewrite <- length_app. now rewrite takeWhile_dropWhile. }
    erewrite first_matchAt.
    2:{ eapply first_seq; [now apply first_bol|].
        eapply first_seq; [apply first_group, first_star_greedy|].
        eapply first_seq; [apply first_group, first_star_greedy|].
        apply first_eol. cbn [pos]. rewrite !Nat.add_0_l, runLen_0. fold k.
        rewrite Hn. apply Hlen. }
    cbn [pos caps repeat setCap]. rewrite !Nat.add_0_l, runLen_0. fold k.
    rewrite Hn, Hlen, substring_full. unfold substring.
    rewrite !Nat.sub_0_r.
    replace (length t - k) with (length (dropWhile isSpace t)) by lia.
    unfold k. rewrite firstn_takeWhile_length, skipn_takeWhile_length.
    now rewrite firstn_all.
  - apply no_match_matchAt. intros s Hs.
    apply in_run_seq in Hs as (s0 & H0 & Hs). apply in_run_bol in H0 as [_ ->].
    apply in_run_seq in Hs as (s1 & H1 & Hs).
    apply in_run_group in H1 as (s1' & H1 & ->).
    apply in_run_star_cls in H1 as [H1 _]. cbn [pos] in H1.
    apply in_run_seq in Hs as (s2 & H2 & Hs).
    apply in_run_group in H2 as (s2' & H2 & ->).
    apply in_run_star_cls in H2 as [H2 _]. cbn [pos] in H2.
    apply in_run_eol in Hs as [He _]. cbn [pos] in He.
    rewrite runLen_0 in H1. fold k in H1.
    (* the run of [.] from the index reached by group 1 covers the rest *)
    assert (Hrest : Forall (fun c => isDot c = true) (skipn (pos s1') t)).
    { replace (skipn (pos s1') t) with (substring t (pos s1') (length t)).
      - apply runLen_Forall. lia.
      - unfold substring. rewrite firstn_all2; auto.
        rewrite length_skipn. lia. }
    assert (Hdrop : Forall (fun c => isDot c = true) (dropWhile isSpace t)).
    { unfold k in H1. rewrite <- skipn_takeWhile_length.
      replace (length (takeWhile isSpace t))
        with (pos s1' + (length (takeWhile isSpace t) - pos s1')) by lia.
      rewrite Nat.add_comm, <- skipn_skipn.
      rewrite Forall_forall in *. intros c Hc. apply Hrest.
      eapply in_skipn_in; eauto. }
    apply forallb_isDot_Forall in Hdrop. congruence.
Qed.

(** ** The title pattern *)

Lemma in_run_lit_code (inp : jsstring) (s s' : mstate) :
  In s' (run inp codeColon s) ->
  nth_error inp (pos s) = Some 99%N /\ pos s' = pos s + 5 /\ caps s' = caps s.
Proof.
  unfold codeColon, Chr. intros H.
  apply in_run_seq in H as (s1 & H1 & H).
  apply in_run_cls in H1 as (c1 & Hc1 & Hp1 & ->).
  apply in_run_seq in H as (s2 & H2 & H).
  apply in_run_cls in H2 as (c2 & _ & _ & ->).
  apply in_run_seq in H as (s3 & H3 & H).
  apply in_run_cls in H3 as (c3 & _ & _ & ->).
  apply in_run_seq in H as (s4 & H4 & H).
  apply in_run_cls in H4 as (c4 & _ & _ & ->).
  apply in_run_cls in H as (c5 & _ & _ & ->).
  cbn [pos caps]. apply N.eqb_eq in Hp1. simpl in Hp1. subst c1.
  repeat split; auto. lia.
Qed.

(** The shape of every match of the title pattern: group 1 is the whole
    leading white space, group 2 is not empty and holds no line
    terminator, group 3, when it took part, starts with "(" and ends
    with ")". *)
Lemma exec_titlePattern_shape (t : jsstring) (m : list (option jsstring)) :
  exec 3 titlePattern t = Some m ->
  exists g2 g3,
    m = [Some t; Some (takeWhile isSpace t); Some g2; g3] /\
    g2 <> [] /\ Forall (fun c => isDot c = true) g2 /\
    (forall tag, g3 = Some tag ->
                 exists inner, tag = 40%N :: inner ++ [41%N]).
Proof.
  unfold titlePattern. rewrite exec_bol. intros H.
  apply matchAt_some_in in H as (s & Hs & ->).
  apply in_run_seq in Hs as (s0 & H0 & Hs). apply in_run_bol in H0 as [_ ->].
  apply in_run_seq in Hs as (s1 & H1 & Hs).
  apply in_run_group in H1 as (s1' & H1 & ->).
  apply in_run_star_cls in H1 as [H1 Hc1]. cbn [pos caps repeat] in H1, Hc1.
  apply in_run_seq in Hs as (sl & Hl & Hs).
  apply in_run_lit_code in Hl as (Hcode & Hpl & Hcl). cbn [pos caps] in *.
  rewrite Hc1 in Hcl. cbn [setCap] in Hcl.
  (* group 1 stops exactly where the white space stops *)
  assert (Hk : pos s1' = length (takeWhile isSpace t)).
  { rewrite runLen_0 in H1.
    destruct (Nat.eq_dec (pos s1') (length (takeWhile isSpace t))); auto.
    destruct (@runLen_inside t isSpace 0 (pos s1')) as (c & Hc & Hsp);
      [rewrite runLen_0; lia|].
    rewrite Hcode in Hc. injection Hc as <-. discriminate Hsp. }
  apply in_run_seq in Hs as (s2 & H2 & Hs).
  apply in_run_group in H2 as (s2' & H2 & ->).
  apply in_run_seq in H2 as (sa & Ha & H2).
  apply in_run_cls in Ha as (ca & Hca & Hpa & ->).
  apply in_run_star_cls in H2 as [H2 Hc2]. cbn [pos caps] in H2, Hc2.
  rewrite Hcl in Hc2.
  assert (Hg2 : substring t (pos sl) (pos s2') =
                ca :: substring t (S (pos sl)) (pos s2'))
    by (apply substring_cons; auto; lia).
  assert (Hdots : Forall (fun c => isDot c = true)
                         (substring t (pos sl) (pos s2'))).
  { rewrite Hg2. constructor; auto. apply runLen_Forall. lia. }
  apply in_run_seq in Hs as (s3 & H3 & Hs).
  apply in_run_seq in Hs as (s4 & H4 & Hs).
  apply in_run_star_cls in H4 as [_ Hc4].
  apply in_run_eol in Hs as [He ->].
  assert (Hwhole : substring t 0 (pos s4) = t)
    by (rewrite He; apply substring_full).
  assert (Hg1 : substring t 0 (pos s1') = takeWhile isSpace t).
  { unfold substring. rewrite Nat.sub_0_r, Hk. simpl.
    apply firstn_takeWhile_length. }
  rewrite Hc4, Hwhole.
  apply in_run_opt in H3 as [[H3 _]| ->].
  - apply in_run_group in H3 as (s3' & H3 & ->).
    apply in_run_seq in H3 as (sp & Hp & H3).
    apply in_run_cls in Hp as (cp & Hcp & Hpp & ->).
    apply in_run_seq in H3 as (sq & Hq & H3).
    apply in_run_seq in Hq as (sr & Hr & Hq).
    apply in_run_cls in Hr as (cr & _ & _ & ->).
    apply in_run_star_cls in Hq as [Hposq Hcq].
    apply in_run_cls in H3 as (cz & Hcz & Hpz & ->).
    cbn [pos caps] in *. rewrite Hcq, Hc2, Hg1. cbn [setCap].
    apply N.eqb_eq in Hpp, Hpz. simpl in Hpp, Hpz. subst cp cz.
    eexists _, _. split; [reflexivity|]. split; [|split; [exact Hdots|]].
    + rewrite Hg2. discriminate.
    + intros tag Htag. injection Htag as <-.
      exists (substring t (S (pos s2')) (pos sq)).
      rewrite (substring_cons t Hcp) by lia.
      now rewrite (@substring_snoc t (S (pos s2')) (pos sq) 41%N) by (auto; lia).
  - cbn [pos caps]. rewrite Hc2, Hg1. cbn [setCap].
    eexists _, _. split; [reflexivity|]. split; [|split; [exact Hdots|]].
    + rewrite Hg2. discriminate.
    + discriminate.
Qed.

(** A title with a tag: the language is group 3 as it is, with its
    parentheses. *)
Lemma extractFromCodeTitle_tagged (t tag : jsstring)
      (m : list (option jsstring)) :
  exec 3 titlePattern t = Some m ->
  nth 3 m None = Some tag ->
  extractFromCodeTitle t =
  Some (CodeTitle.mk (trim (group m 2)) tag (length (takeWhile isSpace t))) /\
  exists inner, tag = 40%N :: inner ++ [41%N].
Proof.
  intros Hm H3.
  destruct (exec_titlePattern_shape _ Hm) as (g2 & g3 & -> & _ & _ & Htag).
  cbn [nth] in H3. subst g3. split; [|now apply Htag].
  unfold extractFromCodeTitle. rewrite Hm. reflexivity.
Qed.

(** Matches of the three patterns on sample texts. *)
Example titlePattern_tag :
  exec 3 titlePattern (str "  code:b(js)") =
  Some [Some (str "  code:b(js)"); Some (str "  "); Some (str "b");
        Some (str "(js)")].
Proof. vm_compute. reflexivity. Qed.

Example titlePattern_lazy_name :
  exec 3 titlePattern (str "code:a.b (x)  ") =
  Some [Some (str "code:a.b (x)  "); Some []; Some (str "a.b ");
        Some (str "(x)")].
Proof. vm_compute. reflexivity. Qed.

Example titlePattern_no_tag :
  exec 3 titlePattern (str "code:a()") =
  Some [Some (str "code:a()"); Some []; Some (str "a()"); None].
Proof. vm_compute. reflexivity. Qed.

Example titlePattern_no_name : exec 3 titlePattern (str "code:") = None.
Proof. vm_compute. reflexivity. Qed.

Example extPattern_last_dot :
  exec 1 extPattern (str "a.b.c") = Some [Some (str "a.b.c"); Some (str "c")].
Proof. vm_compute. reflexivity. Qed.

Example extPattern_leading_dot : exec 1 extPattern (str ".gitignore") = None.
Proof. vm_compute. reflexivity. Qed.

Example bodyPattern_line_terminator :
  exec 2 bodyPattern (str "  a" ++ 10%N :: str "b") = None.
Proof. vm_compute. reflexivity. Qed.

(** ** The extension pattern *)

Lemma rev_seq_split (lo n j : nat) :
  lo <= j < lo + n ->
  rev (seq lo n) = rev (seq (S j) (lo + n - S j)) ++ j :: rev (seq lo (j - lo)).
Proof.
  intros Hj. replace n with ((j - lo) + S (lo + n - S j)) at 1 by lia.
  rewrite seq_app. replace (lo + (j - lo)) with j by lia.
  cbn [seq]. rewrite rev_app_distr. cbn [rev]. now rewrite <- app_assoc.
Qed.

Lemma runLen_all (inp : jsstring) (p : char -> bool) (k : nat) :
  Forall (fun c => p c = true) inp -> runLen inp p k = length inp - k.
Proof.
  intros H. unfold runLen. rewrite takeWhile_all; [apply length_skipn|].
  rewrite Forall_forall in *. intros c Hc. apply H.
  eapply in_skipn_in; eauto.
Qed.

(** With a dot after the first unit, the pattern backtracks to the last
    dot and captures what follows it. *)
Lemma exec_extPattern_dot (a b : jsstring) :
  a <> [] -> ~ In dot b ->
  Forall (fun c => isDot c = true) (a ++ dot :: b) ->
  exec 1 extPattern (a ++ dot :: b) = Some [Some (a ++ dot :: b); Some b].
Proof.
  intros Ha Hb Hdots. set (f := a ++ dot :: b) in *.
  assert (Hlen : length f = length a + S (length b))
    by (unfold f; rewrite length_app; reflexivity).
  assert (Hla : 1 <= length a) by (destruct a; [congruence|simpl; lia]).
  assert (Hat : nth_error f (length a) = Some dot)
    by (unfold f; rewrite nth_error_app2, Nat.sub_diag by lia; reflexivity).
  unfold exec, extPattern. apply search_first.
  set (s0 := MState 0 (repeat None 2)).
  (* the alternatives of the leading [.+], the longest first *)
  assert (Hplus : run f (Plus true Any) s0 =
                  map (fun j => MState j (caps s0))
                      (rev (seq (S (length a)) (S (length b)))) ++
                  MState (length a) (caps s0) ::
                  map (fun j => MState j (caps s0))
                      (rev (seq 1 (length a - 1)))).
  { unfold Plus. change (run f (Seq Any (Star true Any)) s0)
      with (flat_map (run f (Star true Any)) (run f Any s0)).
    destruct f as [|c f'] eqn:Hf; [simpl in Hlen; lia|].
    assert (isDot c = true) as Hc by now inversion Hdots.
    assert (run (c :: f') Any s0 = [MState 1 (caps s0)]) as ->
      by (unfold Any; cbn [run s0 pos nth_error]; now rewrite Hc).
    cbn [flat_map]. rewrite app_nil_r.
    rewrite <- Hf in *. unfold Any. rewrite run_star_cls. cbn [pos caps].
    rewrite runLen_all by assumption. unfold order.
    replace (S (length f - 1)) with (length f) by lia.
    rewrite (@rev_seq_split 1 (length f) (length a)) by lia.
    rewrite map_app. cbn [map].
    replace (1 + length f - S (length a)) with (S (length b)) by lia.
    reflexivity. }
  erewrite first_matchAt.
  2:{ eapply first_seq_skip; [exact Hplus| |].
      - intros x Hx. apply in_map_iff in Hx as (j & <- & Hj).
        apply in_rev, in_seq in Hj.
        apply list_nil_no_member. intros s Hs.
        apply in_run_seq in Hs as (s1 & H1 & _).
        apply in_run_cls in H1 as (c & Hc & Hp & _).
        cbn [pos] in Hc. apply N.eqb_eq in Hp. simpl in Hp. subst c.
        unfold f in Hc. rewrite nth_error_app2 in Hc by lia.
        replace (j - length a) with (S (j - S (length a))) in Hc by lia.
        simpl in Hc. apply nth_error_In in Hc. now apply Hb.
      - eapply first_seq;
          [apply first_cls with (c := dot); [exact Hat|reflexivity]|].
        eapply first_seq; [apply first_group, first_star_greedy|].
        apply first_eol. cbn [pos].
        rewrite runLen_all by assumption. lia. }
  cbn [pos caps s0 repeat setCap].
  rewrite runLen_all by assumption.
  replace (S (length a) + (length f - S (length a))) with (length f) by lia.
  rewrite substring_full. unfold substring.
  replace (skipn (S (length a)) f) with b.
  - rewrite firstn_all2 by lia. reflexivity.
  - unfold f. rewrite skipn_app.
    rewrite skipn_all2 by lia.
    replace (S (length a) - length a) with 1 by lia. reflexivity.
Qed.

(** Without a dot after the first unit, the pattern does not match. *)
Lemma exec_extPattern_nodot (f : jsstring) :
  (forall j, nth_error f (S j) <> Some dot) ->
  exec 1 extPattern f = None.
Proof.
  intros Hno. unfold exec, extPattern. apply search_none. intros k.
  apply list_nil_no_member. intros s Hs.
  apply in_run_seq in Hs as (s1 & H1 & Hs).
  apply in_run_seq in H1 as (sa & Ha & H1).
  apply in_run_cls in Ha as (ca & _ & _ & ->).
  apply in_run_star_cls in H1 as [H1 _]. cbn [pos] in H1.
  apply in_run_seq in Hs as (s2 & H2 & _).
  apply in_run_cls in H2 as (c & Hc & Hp & _).
  apply N.eqb_eq in Hp. simpl in Hp. subst c.
  destruct (pos s1) as [|j]; [lia|]. now apply (Hno j).
Qed.

(** ** The classifiers *)

Lemma Forall_dropWhile (P : char -> Prop) (p : char -> bool) (s : jsstring) :
  Forall P s -> Forall P (dropWhile p s).
Proof.
  induction 1 as [|c s Hc Hs IH]; simpl; auto. destruct (p c); auto.
Qed.

Lemma Forall_trim (P : char -> Prop) (s : jsstring) :
  Forall P s -> Forall P (trim s).
Proof.
  intros H. unfold trim.
  apply Forall_rev, Forall_dropWhile, Forall_rev, Forall_dropWhile, H.
Qed.

(** [extractFromCodeBody] in terms of the leading white space. *)
Lemma extractFromCodeBody_eq (t : jsstring) (T : nat) :
  extractFromCodeBody t T =
  if forallb isDot (dropWhile isSpace t)
  then if length (takeWhile isSpace t) <=? T then None
       else Some (skipn (length (takeWhile isSpace t) - T) (takeWhile isSpace t)
                  ++ dropWhile isSpace t)
  else None.
Proof.
  unfold extractFromCodeBody. rewrite exec_bodyPattern.
  destruct (forallb isDot (dropWhile isSpace t)); reflexivity.
Qed.

Lemma extractFromCodeBody_some_indent (t body : jsstring) (T : nat) :
  extractFromCodeBody t T = Some body -> T < length (takeWhile isSpace t).
Proof.
  rewrite extractFromCodeBody_eq.
  destruct (forallb isDot (dropWhile isSpace t)); try discriminate.
  destruct (Nat.leb_spec (length (takeWhile isSpace t)) T); try discriminate.
  auto.
Qed.

(** The title indentation is the length of the leading white space. *)
Lemma extractFromCodeTitle_indent (t : jsstring) (ct : CodeTitle.t) :
  extractFromCodeTitle t = Some ct ->
  CodeTitle.indent ct = length (takeWhile isSpace t).
Proof.
  unfold extractFromCodeTitle.
  destruct (exec 3 titlePattern t) as [m|] eqn:Hm; try discriminate.
  destruct (exec_titlePattern_shape _ Hm) as (g2 & g3 & -> & _ & _).
  cbn [nth group].
  destruct g3 as [tag|].
  - intros H. injection H as <-. reflexivity.
  - destruct (exec 1 extPattern (trim g2)) as [ext|].
    + destruct (JS.eqb (group ext 1) []); try discriminate.
      intros H. injection H as <-. reflexivity.
    + intros H. injection H as <-. reflexivity.
Qed.

(** The three outcomes of a title without a tag, by the place of the
    last dot of the file name. *)
Lemma extractFromCodeTitle_untagged (t : jsstring) (m : list (option jsstring)) :
  exec 3 titlePattern t = Some m ->
  nth 3 m None = None ->
  let fileName := trim (group m 2) in
  let T := length (takeWhile isSpace t) in
  ((forall j, nth_error fileName (S j) <> Some dot) ->
   extractFromCodeTitle t = Some (CodeTitle.mk fileName fileName T)) /\
  (forall a, a <> [] -> fileName = a ++ [dot] ->
             extractFromCodeTitle t = None) /\
  (forall a b, a <> [] -> b <> [] -> ~ In dot b -> fileName = a ++ dot :: b ->
               extractFromCodeTitle t = Some (CodeTitle.mk fileName b T)).
Proof.
  intros Hm H3 fileName T.
  destruct (exec_titlePattern_shape _ Hm) as (g2 & g3 & -> & _ & Hd & _).
  cbn [nth] in H3. subst g3. cbn [group nth] in fileName.
  assert (Hf : Forall (fun c => isDot c = true) fileName)
    by now apply Forall_trim.
  unfold extractFromCodeTitle. rewrite Hm. cbn [group nth]. fold fileName.
  split; [|split].
  - intros Hno. now rewrite exec_extPattern_nodot.
  - intros a Ha Hfn. rewrite Hfn in *.
    rewrite exec_extPattern_dot by auto. reflexivity.
  - intros a b Ha Hb Hnd Hfn. rewrite Hfn in Hf |- * at 1.
    rewrite exec_extPattern_dot by auto. cbn [group nth].
    destruct b; [congruence|]. reflexivity.
Qed.

(** The three cases of [extractFromCodeTitle_untagged] cover every file
    name: with a dot after the first unit, the name splits at its last
    dot into a stem that is not empty and an extension without a dot. *)
Lemma fileName_cases (f : jsstring) :
  (forall j, nth_error f (S j) <> Some dot) \/
  (exists stem ext, stem <> [] /\ ~ In dot ext /\ f = stem ++ dot :: ext).
Proof.
  induction f as [|x l IH] using rev_ind.
  - left. intros j. destruct j; discriminate.
  - destruct (N.eq_dec x dot) as [->|Hx].
    + destruct l as [|a l].
      * left. intros j. destruct j; discriminate.
      * right. exists (a :: l), []. repeat split; auto. discriminate.
    + destruct IH as [Hno|(stem & ext & Hs & He & ->)].
      * left. intros j Hj.
        destruct (Nat.lt_ge_cases (S j) (length l)) as [Hlt|Hge].
        -- rewrite nth_error_app1 in Hj by exact Hlt. now apply (Hno j).
        -- rewrite nth_error_app2 in Hj by exact Hge.
           destruct (S j - length l) as [|[|k]]; simpl in Hj; congruence.
      * right. exists stem, (ext ++ [x]). repeat split; auto.
        -- intros Hin. apply in_app_or in Hin as [Hin|[Hin|[]]]; auto.
        -- now rewrite <- app_assoc.
Qed.

(** ** The accumulation loop *)

Lemma updateLast_snoc f (bs : list TinyCodeBlock.t) (b : TinyCodeBlock.t) :
  updateLast f (bs ++ [b]) = Ok (bs ++ [f b]).
Proof.
  induction bs as [|a bs IH]; [reflexivity|].
  change ((a :: bs) ++ [b]) with (a :: (bs ++ [b])).
  cbn [updateLast]. rewrite IH.
  destruct (bs ++ [b]) eqn:E; [destruct bs; discriminate|reflexivity].
Qed.

Lemma closedBlocks_extend pre more bs :
  closedBlocks pre bs -> closedBlocks (pre ++ more) bs.
Proof.
  intros H. destruct H as [ls|pre bs b ct l rest Hc Ho Hb Hn Ht].
  - constructor.
  - replace ((pre ++ TinyCodeBlock.titleLine b
                :: TinyCodeBlock.bodyLines b ++ l :: rest) ++ more)
      with (pre ++ TinyCodeBlock.titleLine b
                :: TinyCodeBlock.bodyLines b ++ l :: (rest ++ more)).
    + econstructor; eauto.
    + rewrite <- !app_assoc. simpl. rewrite <- app_assoc. reflexivity.
Qed.

Lemma invariant_initial : invariant [] initialState.
Proof. cbn. constructor. Qed.

Lemma step_invariant filter pre st line :
  invariant pre st ->
  exists st', step filter st line = Ok st' /\ invariant (pre ++ [line]) st'.
Proof.
  destruct st as [[inBlock collect ct] blocks].
  unfold invariant, step. cbn [currentCode codeBlocks isCodeBlock isCollect title].
  destruct inBlock; cbn [andb].
  - destruct (extractFromCodeBody (text line) (CodeTitle.indent ct)) as [body|] eqn:Hb.
    + destruct collect; cbn [negb].
      * intros (bs & b & p1 & -> & -> & Hc & Ho & Hbody & Hn).
        rewrite updateLast_snoc. cbn [bind].
        eexists. split; [reflexivity|].
        cbn [currentCode codeBlocks isCodeBlock isCollect title andb].
        exists bs, (pushBodyLine line b), p1. cbn.
        repeat split; auto; try apply Ho.
        -- now rewrite <- app_assoc.
        -- apply Forall_app. split; auto. constructor; auto. congruence.
      * intros Hc. eexists. split; [reflexivity|].
        cbn. now apply closedBlocks_extend.
    + destruct collect.
      * intros (bs & b & p1 & -> & -> & Hc & Ho & Hbody & Hn).
        rewrite updateLast_snoc. cbn [bind].
        eexists. split; [reflexivity|]. cbn.
        replace ((p1 ++ TinyCodeBlock.titleLine b :: TinyCodeBlock.bodyLines b)
                   ++ [line])
          with (p1 ++ TinyCodeBlock.titleLine (setNextLine line b)
                   :: TinyCodeBlock.bodyLines (setNextLine line b) ++ line :: [])
          by (cbn; now rewrite <- app_assoc).
        eapply closed_snoc with (ct := ct); eauto.
      * intros Hc. eexists. split; [reflexivity|].
        cbn. now apply closedBlocks_extend.
  - intros Hc.
    destruct (extractFromCodeTitle (text line)) as [matched|] eqn:Ht.
    + cbn [isCollect title].
      destruct (isMatchFilter matched filter) eqn:Hf; cbn [negb].
      * eexists. split; [reflexivity|]. cbn.
        eexists blocks, _, pre. cbn. repeat split; auto. constructor.
      * eexists. split; [reflexivity|]. cbn.
        now apply closedBlocks_extend.
    + eexists. split; [reflexivity|]. cbn.
      now apply closedBlocks_extend.
Qed.

Lemma loop_invariant filter lines : forall pre st,
  invariant pre st ->
  exists st', loop filter st lines = Ok st' /\ invariant (pre ++ lines) st'.
Proof.
  induction lines as [|line lines IH]; intros pre st Hinv.
  - exists st. rewrite app_nil_r. auto.
  - destruct (@step_invariant filter pre st line Hinv) as (st1 & Hs & Hinv1).
    destruct (IH _ _ Hinv1) as (st' & Hl & Hinv').
    exists st'. cbn [loop]. rewrite Hs. cbn [bind]. split; auto.
    now rewrite <- app_assoc in Hinv'.
Qed.

(** The loop never throws, and its final state satisfies the invariant
    for the whole input. *)
Lemma loop_total filter lines :
  exists st, loop filter initialState lines = Ok st /\ invariant lines st.
Proof. apply (@loop_invariant filter lines [] initialState invariant_initial). Qed.

(** ** Shape of the output *)

Lemma bodyOf_indent (ct : CodeTitle.t) (b : TinyCodeBlock.t) :
  opens b ct ->
  bodyOf (CodeTitle.indent ct) (TinyCodeBlock.bodyLines b) ->
  CodeTitle.indent ct = wsLen (text (TinyCodeBlock.titleLine b)) /\
  Forall (fun l => wsLen (text (TinyCodeBlock.titleLine b)) < wsLen (text l))
         (TinyCodeBlock.bodyLines b).
Proof.
  intros (Ht & _ & _) Hb. apply extractFromCodeTitle_indent in Ht.
  fold (wsLen (text (TinyCodeBlock.titleLine b))) in Ht. split; auto.
  rewrite <- Ht. unfold bodyOf in Hb. rewrite Forall_forall in *.
  intros l Hl. specialize (Hb l Hl).
  destruct (extractFromCodeBody (text l) (CodeTitle.indent ct)) as [body|] eqn:E;
    [|congruence].
  eapply extractFromCodeBody_some_indent; eauto.
Qed.

Lemma wellFormedBlock_extend lines more b :
  TinyCodeBlock.nextLine b <> None ->
  wellFormedBlock lines b -> wellFormedBlock (lines ++ more) b.
Proof.
  intros Hn (p1 & post & -> & Hb & Hnext).
  destruct (TinyCodeBlock.nextLine b) as [l|] eqn:E; [|congruence].
  destruct Hnext as (post' & -> & Ht).
  exists p1, (l :: post' ++ more). rewrite E. repeat split; eauto.
  rewrite <- app_assoc. simpl. now rewrite <- app_assoc.
Qed.

Lemma closedBlocks_wellFormed ls bs :
  closedBlocks ls bs ->
  Forall (fun b => wellFormedBlock ls b /\ TinyCodeBlock.nextLine b <> None) bs.
Proof.
  induction 1 as [ls|pre bs b ct l rest Hc IH Ho Hb Hn Ht]; [constructor|].
  destruct (bodyOf_indent Ho Hb) as [HT Hind].
  apply Forall_app. split.
  - eapply Forall_impl; [|exact IH]. intros a [Hw Ha]. split; auto.
    now apply wellFormedBlock_extend.
  - constructor; [|constructor]. split; [|congruence].
    rewrite HT in Ht.
    exists pre, (l :: rest). rewrite Hn. repeat split; eauto.
Qed.

Lemma invariant_wellFormed lines st :
  invariant lines st -> Forall (wellFormedBlock lines) (codeBlocks st).
Proof.
  unfold invariant.
  destruct (isCodeBlock (currentCode st) && isCollect (currentCode st)).
  - intros (bs & b & p1 & -> & -> & Hc & Ho & Hb & Hn).
    destruct (bodyOf_indent Ho Hb) as [HT Hind].
    apply Forall_app. split.
    + apply closedBlocks_wellFormed in Hc.
      eapply Forall_impl; [|exact Hc]. intros a [Hw Ha].
      now apply wellFormedBlock_extend.
    + constructor; [|constructor].
      exists p1, []. rewrite Hn, app_nil_r. auto.
  - intros Hc. apply closedBlocks_wellFormed in Hc.
    eapply Forall_impl; [|exact Hc]. now intros a [Hw _].
Qed.




(** On a sequence of lines [getCodeBlocks] is the loop, which ends in a
    state that satisfies the invariant. *)
Lemma getCodeBlocks_lines pull lines filter :
  exists st,
    loop filter initialState lines = Ok st /\
    invariant lines st /\
    getCodeBlocks pull (Lines lines) filter = Some (Ok (codeBlocks st)).
Proof.
  destruct (loop_total filter lines) as (st & Hl & Hinv).
  exists st. repeat split; auto.
  unfold getCodeBlocks. cbn [getLines]. now rewrite Hl.
Qed.

(** ** The filter *)

Lemma matchesBlock_title filter (b : TinyCodeBlock.t) (ct : CodeTitle.t) :
  TinyCodeBlock.filename b = CodeTitle.fileName ct ->
  TinyCodeBlock.lang b = CodeTitle.lang ct ->
  matchesBlock filter b = isMatchFilter ct filter.
Proof.
  intros Hf Hl. unfold matchesBlock, isMatchFilter. cbn. now rewrite Hf, Hl.
Qed.

(** A filter whose fields are absent or not empty is the exact-match
    test on the fields that are present. *)
Lemma isMatchFilter_exact (ct : CodeTitle.t) (f : GetCodeBlocksFilter) :
  filter_filename f <> Some [] -> filter_lang f <> Some [] ->
  (isMatchFilter ct (Some f) = true <->
   (forall s, filter_filename f = Some s -> s = CodeTitle.fileName ct) /\
   (forall s, filter_lang f = Some s -> s = CodeTitle.lang ct)).
Proof.
  destruct f as [fn lg]. cbn [filter_filename filter_lang isMatchFilter].
  intros Hf Hl.
  assert (Hfn : truthy fn && differs fn (CodeTitle.fileName ct) = false <->
                forall s, fn = Some s -> s = CodeTitle.fileName ct).
  { destruct fn as [[|a fn]|]; [now destruct Hf| |]; cbn.
    - destruct (JS.eqb (a :: fn) (CodeTitle.fileName ct)) eqn:E; cbn.
      + apply eqb_eq in E. split; auto. intros _ s Hs. congruence.
      + split; [discriminate|]. intros H. specialize (H _ eq_refl).
        apply eqb_eq in H. congruence.
    - split; auto. discriminate. }
  assert (Hlg : truthy lg && differs lg (CodeTitle.lang ct) = false <->
                forall s, lg = Some s -> s = CodeTitle.lang ct).
  { destruct lg as [[|a lg]|]; [now destruct Hl| |]; cbn.
    - destruct (JS.eqb (a :: lg) (CodeTitle.lang ct)) eqn:E; cbn.
      + apply eqb_eq in E. split; auto. intros _ s Hs. congruence.
      + split; [discriminate|]. intros H. specialize (H _ eq_refl).
        apply eqb_eq in H. congruence.
    - split; auto. discriminate. }
  rewrite <- Hfn, <- Hlg.
  destruct (truthy fn && differs fn (CodeTitle.fileName ct));
    destruct (truthy lg && differs lg (CodeTitle.lang ct));
    split; try tauto; try discriminate; intros [? ?]; discriminate.
Qed.

Lemma filter_snoc (P : TinyCodeBlock.t -> bool) bs b :
  List.filter P (bs ++ [b]) = List.filter P bs ++ (if P b then [b] else []).
Proof. rewrite filter_app. reflexivity. Qed.

Ltac sim_close :=
  cbn [currentCode codeBlocks isCodeBlock isCollect title stopBlock];
  repeat match goal with
         | |- _ /\ _ => split
         | |- false = true -> _ => discriminate
         | |- _ -> _ => intro
         | |- exists _, _ => eexists
         end;
  try reflexivity; try discriminate; auto.

Lemma step_sim filter sf su line :
  sim filter sf su ->
  exists sf' su',
    step filter sf line = Ok sf' /\ step None su line = Ok su' /\
    sim filter sf' su'.
Proof.
  destruct sf as [[inF colF ctF] blocksF], su as [[inU colU ctU] blocksU].
  unfold sim, step.
  cbn [currentCode codeBlocks isCodeBlock isCollect title].
  intros (-> & -> & -> & Hopen).
  destruct inU.
  - destruct (Hopen eq_refl) as (-> & -> & bs & b & -> & Hfn & Hlg).
    clear Hopen. rewrite filter_snoc.
    pose proof (matchesBlock_title filter b ctU Hfn Hlg) as Hm.
    pose proof (matchesBlock_title filter (pushBodyLine line b) ctU Hfn Hlg)
      as Hpush.
    pose proof (matchesBlock_title filter (setNextLine line b) ctU Hfn Hlg)
      as Hnext.
    destruct (extractFromCodeBody (text line) (CodeTitle.indent ctU)) as [body|];
      rewrite updateLast_snoc; cbn [bind negb];
      destruct (isMatchFilter ctU filter) eqn:Hf; rewrite Hm; cbn [negb];
      rewrite ?updateLast_snoc; cbn [bind];
      (eexists _, _; split; [reflexivity|]; split; [reflexivity|]);
      cbn [currentCode codeBlocks isCodeBlock isCollect title stopBlock];
      rewrite filter_snoc, ?Hpush, ?Hnext; sim_close.
  - clear Hopen.
    destruct (extractFromCodeTitle (text line)) as [matched|].
    + cbn [isCollect title isMatchFilter negb].
      assert (Hnew : forall l,
                 matchesBlock filter
                   (TinyCodeBlock.mk (CodeTitle.fileName matched)
                                     (CodeTitle.lang matched) l [] None) =
                 isMatchFilter matched filter)
        by (intros l; now apply matchesBlock_title).
      destruct (isMatchFilter matched filter) eqn:Hf; cbn [negb];
        (eexists _, _; split; [reflexivity|]; split; [reflexivity|]);
        cbn [currentCode codeBlocks isCodeBlock isCollect title];
        rewrite filter_snoc, Hnew, ?app_nil_r; sim_close.
    + eexists _, _. split; [reflexivity|]. split; [reflexivity|]. sim_close.
Qed.

Lemma loop_sim filter lines : forall sf su,
  sim filter sf su ->
  exists sf' su',
    loop filter sf lines = Ok sf' /\ loop None su lines = Ok su' /\
    sim filter sf' su'.
Proof.
  induction lines as [|line lines IH]; intros sf su Hsim.
  - exists sf, su. auto.
  - destruct (@step_sim filter sf su line Hsim) as (sf1 & su1 & Hf & Hu & Hsim1).
    destruct (IH _ _ Hsim1) as (sf' & su' & Hf' & Hu' & Hsim').
    exists sf', su'. cbn [loop]. rewrite Hf, Hu. cbn [bind]. auto.
Qed.

(** Filtering inline gives the blocks of the unfiltered run that pass
    the filter. *)
Lemma getCodeBlocks_filter pull lines filter :
  exists unfiltered,
    getCodeBlocks pull (Lines lines) None = Some (Ok unfiltered) /\
    getCodeBlocks pull (Lines lines) filter =
    Some (Ok (List.filter (matchesBlock filter) unfiltered)).
Proof.
  assert (Hinit : sim filter initialState initialState).
  { unfold sim. cbn. repeat split; auto; discriminate. }
  destruct (@loop_sim filter lines _ _ Hinit) as (sf & su & Hf & Hu & Hsim).
  exists (codeBlocks su). unfold getCodeBlocks. cbn [getLines].
  rewrite Hf, Hu. cbn [bind]. split; auto.
  destruct Hsim as (_ & _ & -> & _). reflexivity.
Qed.

(** Two filters that accept the same titles give the same run. *)
Lemma step_filter_ext f1 f2 st line :
  (forall ct, isMatchFilter ct f1 = isMatchFilter ct f2) ->
  step f1 st line = step f2 st line.
Proof.
  intros H. unfold step.
  destruct (isCodeBlock (currentCode st)); auto.
  destruct (extractFromCodeTitle (text line)); auto.
  now rewrite H.
Qed.

Lemma loop_filter_ext f1 f2 lines :
  (forall ct, isMatchFilter ct f1 = isMatchFilter ct f2) ->
  forall st, loop f1 st lines = loop f2 st lines.
Proof.
  intros H. induction lines as [|line lines IH]; intros st; cbn [loop]; auto.
  rewrite (@step_filter_ext f1 f2 st line H).
  destruct (step f2 st line); cbn [bind]; auto.
Qed.


(** * The claims *)

Unset Implicit Arguments.

(** C1 (the code departs from the claim): a line that ends an open block
    is not looked at again as a title.  On the lines "code:d.py",
    "code:e.py", "  z" with the filter on language "py" the loop returns
    one block only, the one of "code:d.py", with no body line and with
    the line "code:e.py" as its next line; no block is opened for
    "code:e.py". *)
Theorem C1_terminator_line_not_reexamined pull :
  getCodeBlocks pull (Lines scenario4) (langFilter "py") =
  Some (Ok [TinyCodeBlock.mk (str "d.py") (str "py") (ln "1" "code:d.py") []
                             (Some (ln "2" "code:e.py"))]).
Proof. vm_compute. reflexivity. Qed.

(** C2 (the code departs from the claim): the language of a title with a
    tag is the whole of group 3, parentheses included.  On the lines
    "  code:b(js)", "    x=1", "  y" the single block has file name "b"
    and language "(js)". *)
Theorem C2_tag_keeps_parentheses pull :
  getCodeBlocks pull (Lines scenario2) None =
  Some (Ok [TinyCodeBlock.mk (str "b") (str "(js)") (ln "1" "  code:b(js)")
                             [ln "2" "    x=1"] (Some (ln "3" "  y"))]).
Proof. vm_compute. reflexivity. Qed.




(** C4, as stated, fails: on the lines "code:a.txt", "  hello",
    "  world", "done" the texts of the body lines of the block are
    "  hello" and "  world", not "hello" and "world". *)
Lemma C4_counterexample :
  exists b,
    getCodeBlocks noPull (Lines scenario1) None = Some (Ok [b]) /\
    bodyTexts b = [str "  hello"; str "  world"] /\
    bodyTexts b <> [str "hello"; str "world"].
Proof.
  eexists. split; [vm_compute; reflexivity|].
  split; [vm_compute; reflexivity|].
  vm_compute. discriminate.
Qed.

(** C4, amended: the entries of [bodyLines] are the input lines
    themselves, unchanged, as they follow the title line in the input
    (their text keeps the whole indentation); on the lines "code:a.txt",
    "  hello", "  world", "done" without a filter, the output is one
    block with file name "a.txt", language "txt", the body lines
    "  hello" and "  world" and the next line "done". *)
Theorem C4_bodyLines_are_source_lines pull lines filter :
  (exists blocks,
     getCodeBlocks pull (Lines lines) filter = Some (Ok blocks) /\
     Forall (fun b => exists before after,
                 lines = before ++ TinyCodeBlock.titleLine b
                                :: TinyCodeBlock.bodyLines b ++ after)
            blocks) /\
  getCodeBlocks pull (Lines scenario1) None =
  Some (Ok [TinyCodeBlock.mk (str "a.txt") (str "txt") (ln "1" "code:a.txt")
                             [ln "2" "  hello"; ln "3" "  world"]
                             (Some (ln "4" "done"))]).
Proof.
  split; [|vm_compute; reflexivity].
  destruct (getCodeBlocks_lines pull lines filter) as (st & _ & Hinv & Hg).
  exists (codeBlocks st). split; auto.
  apply invariant_wellFormed in Hinv.
  eapply Forall_impl; [|exact Hinv].
  intros b (p1 & post & Hl & _). eauto.
Qed.

(** C5, as stated, fails.  The title "code:.gitignore" has no tag, its
    file name holds a dot and does not end in one, and its language is
    the whole file name ".gitignore", not "gitignore"; the title
    "code:." has a file name that ends in a dot and is accepted. *)
Lemma C5_counterexample :
  (exists m, exec 3 titlePattern (str "code:.gitignore") = Some m /\
             nth 3 m None = None /\
             trim (group m 2) = str ".gitignore") /\
  titleLang_spec (str ".gitignore") = Some (str "gitignore") /\
  extractFromCodeTitle (str "code:.gitignore") =
  Some (CodeTitle.mk (str ".gitignore") (str ".gitignore") 0) /\
  titleLang_spec (str ".") = None /\
  extractFromCodeTitle (str "code:.") =
  Some (CodeTitle.mk (str ".") (str ".") 0).
Proof.
  split.
  - eexists. split; [vm_compute; reflexivity|].
    split; vm_compute; reflexivity.
  - repeat split; vm_compute; reflexivity.
Qed.

(** C5, amended: for a title line without a tag, with the trimmed group
    2 as file name: when the file name has no dot after its first unit
    (no dot at all, or a leading dot only), the language is the whole
    file name; when the file name ends in a dot that is not its first
    unit, the line is rejected as a title, and the loop, outside a
    block, opens no block for it and stays outside; otherwise the
    language is what follows the last dot. *)
Theorem C5_untagged_title_language (t : jsstring)
        (m : list (option jsstring)) :
  exec 3 titlePattern t = Some m ->
  nth 3 m None = None ->
  let fileName := trim (group m 2) in
  let T := wsLen t in
  ((forall j, nth_error fileName (S j) <> Some dot) ->
   extractFromCodeTitle t = Some (CodeTitle.mk fileName fileName T)) /\
  (forall stem, stem <> [] -> fileName = stem ++ [dot] ->
     extractFromCodeTitle t = None /\
     forall filter st l,
       text l = t -> isCodeBlock (currentCode st) = false ->
       step filter st l = Ok (mkLoop (stopBlock (currentCode st))
                                     (codeBlocks st))) /\
  (forall stem ext, stem <> [] -> ext <> [] -> ~ In dot ext ->
     fileName = stem ++ dot :: ext ->
     extractFromCodeTitle t = Some (CodeTitle.mk fileName ext T)).
Proof.
  intros Hm H3 fileName T.
  destruct (extractFromCodeTitle_untagged t Hm H3) as (Hnone & Hrej & Hext).
  fold fileName in Hnone, Hrej, Hext. fold (wsLen t) in Hnone, Hext.
  split; [exact Hnone|]. split; [|exact Hext].
  intros stem Hs Hf. split; [now apply (Hrej stem)|].
  intros filter st l Hl Hc. unfold step. rewrite Hc, Hl.
  now rewrite (Hrej stem Hs Hf).
Qed.

Lemma C5_witness :
  extractFromCodeTitle (str "code:a.b.c") =
  Some (CodeTitle.mk (str "a.b.c") (str "c") 0).
Proof.
  refine (proj2 (proj2 (@C5_untagged_title_language (str "code:a.b.c")
            [Some (str "code:a.b.c"); Some []; Some (str "a.b.c"); None]
            _ _)) (str "a.b") (str "c") _ _ _ _).
  - vm_compute. reflexivity.
  - reflexivity.
  - discriminate.
  - discriminate.
  - vm_compute. intros [H|[]]. discriminate.
  - vm_compute. reflexivity.
Defined.

(** C6: every block of the output lies in the input as its title line,
    followed without a gap by its body lines, each of which has more
    leading white space than the title line; a line with no more
    leading white space than the title is thus never a body line; the
    next line, when present, is the line right after the body and is the
    one the body classifier refused; when it is absent the block runs to
    the end of the input. *)
Theorem C6_block_invariant pull lines filter :
  exists blocks,
    getCodeBlocks pull (Lines lines) filter = Some (Ok blocks) /\
    Forall (wellFormedBlock lines) blocks.
Proof.
  destruct (getCodeBlocks_lines pull lines filter) as (st & _ & Hinv & Hg).
  exists (codeBlocks st). split; auto. now apply invariant_wellFormed.
Qed.

Lemma filter_none (P : TinyCodeBlock.t -> bool) l :
  (forall b, In b l -> P b = false) -> List.filter P l = [].
Proof.
  induction l as [|a l IH]; intros H; simpl; auto.
  rewrite (H a (or_introl eq_refl)). apply IH. intros b Hb. apply H. now right.
Qed.

Lemma matchesBlock_nonEmptyMatch filter (b : TinyCodeBlock.t) :
  matchesBlock filter b = nonEmptyMatch filter b.
Proof.
  unfold matchesBlock, isMatchFilter, nonEmptyMatch.
  destruct filter as [[fn lg]|]; [|reflexivity].
  cbn [filter_filename filter_lang CodeTitle.fileName CodeTitle.lang].
  destruct fn as [[|c r]|]; destruct lg as [[|c' r']|];
    cbn [truthy differs nonEmptyCondition andb negb];
    repeat match goal with
           | |- context [JS.eqb ?x ?y] => destruct (JS.eqb x y)
           end; reflexivity.
Qed.

(** C7, as stated, fails when "matches" is the exact-match test of the
    specification: on the lines "code:a.js", " x" the filter whose
    language is the empty string matches no block of the unfiltered
    output, and the output under this filter is not empty: it is the
    unfiltered output. *)
Lemma C7_counterexample :
  exists b,
    getCodeBlocks noPull (Lines oneBlock) None = Some (Ok [b]) /\
    (forall x, In x [b] ->
               exactMatch (Some (mkFilter None (Some []))) x = false) /\
    getCodeBlocks noPull (Lines oneBlock) (Some (mkFilter None (Some []))) =
    Some (Ok [b]) /\
    getCodeBlocks noPull (Lines oneBlock) (Some (mkFilter None (Some [])))
    <> Some (Ok []).
Proof.
  eexists. split; [vm_compute; reflexivity|]. split.
  - intros x [<-|[]]. vm_compute. reflexivity.
  - split; [vm_compute; reflexivity|]. vm_compute. discriminate.
Qed.

(** C7, amended: a condition of the filter counts when it is present
    and is not the empty string, and then it must be equal to the file
    name, or to the language, of the block.  With the unfiltered output
    at hand, a filter that matches no block of it gives the empty
    output, and a filter that matches exactly one block of it gives that
    block alone, equal field for field to the unfiltered entry. *)
Theorem C7_filter_selectivity pull lines filter unfiltered :
  getCodeBlocks pull (Lines lines) None = Some (Ok unfiltered) ->
  ((forall b, In b unfiltered -> nonEmptyMatch filter b = false) ->
   getCodeBlocks pull (Lines lines) filter = Some (Ok [])) /\
  (forall before b after,
     unfiltered = before ++ b :: after ->
     nonEmptyMatch filter b = true ->
     (forall x, In x (before ++ after) -> nonEmptyMatch filter x = false) ->
     getCodeBlocks pull (Lines lines) filter = Some (Ok [b])).
Proof.
  intros Hu.
  destruct (getCodeBlocks_filter pull lines filter) as (u & Hu' & Hf).
  rewrite Hu in Hu'. injection Hu' as <-. rewrite Hf. split.
  - intros Hnone. apply f_equal, f_equal, filter_none.
    intros b Hb. rewrite matchesBlock_nonEmptyMatch. auto.
  - intros before b after -> Hb Hothers.
    rewrite filter_app. cbn [List.filter].
    rewrite matchesBlock_nonEmptyMatch, Hb.
    rewrite !filter_none; auto; intros x Hx;
      rewrite matchesBlock_nonEmptyMatch; apply Hothers, in_or_app; auto.
Qed.

Lemma C7_witness :
  getCodeBlocks noPull (Lines twoBlocks) (langFilter "rb") = Some (Ok []) /\
  getCodeBlocks noPull (Lines twoBlocks) (langFilter "py") =
  Some (Ok [TinyCodeBlock.mk (str "b.py") (str "py") (ln "4" "code:b.py")
                             [ln "5" " y"] None]).
Proof.
  assert (Hu : getCodeBlocks noPull (Lines twoBlocks) None =
               Some (Ok [TinyCodeBlock.mk (str "a.js") (str "js")
                           (ln "1" "code:a.js") [ln "2" " x"]
                           (Some (ln "3" "end"));
                         TinyCodeBlock.mk (str "b.py") (str "py")
                           (ln "4" "code:b.py") [ln "5" " y"] None])
         ) by (vm_compute; reflexivity).
  split.
  - apply (proj1 (C7_filter_selectivity noPull twoBlocks (langFilter "rb") _ Hu)).
    intros b [<-|[<-|[]]]; vm_compute; reflexivity.
  - apply (proj2 (C7_filter_selectivity noPull twoBlocks (langFilter "py") _ Hu)
                 [TinyCodeBlock.mk (str "a.js") (str "js")
                    (ln "1" "code:a.js") [ln "2" " x"] (Some (ln "3" "end"))]
                 _ []).
    + reflexivity.
    + vm_compute. reflexivity.
    + intros x [<-|[]]. vm_compute. reflexivity.
Defined.



(** C9: a filter whose two fields are present and equal to the empty
    string gives the same output as no filter. *)
Theorem C9_empty_string_filter pull lines :
  getCodeBlocks pull (Lines lines) (Some (mkFilter (Some []) (Some []))) =
  getCodeBlocks pull (Lines lines) None.
Proof.
  unfold getCodeBlocks. cbn [getLines].
  now rewrite (@loop_filter_ext (Some (mkFilter (Some []) (Some []))) None
                 lines (fun ct => eq_refl)).
Qed.

(** C10: whenever the loop is inside a block that it collects, which is
    the only case in which it writes to the last element of the output,
    the output is not empty, its last element is the block opened by the
    current title line, still without a next line, and lies at the end
    of the lines read so far; the blocks before it are closed; for any
    line read next the step does not throw and leaves every block but
    the last as it was. *)
Theorem C10_last_block_is_current filter pre st :
  loop filter initialState pre = Ok st ->
  isCodeBlock (currentCode st) = true ->
  isCollect (currentCode st) = true ->
  exists bs b p1,
    codeBlocks st = bs ++ [b] /\
    pre = p1 ++ TinyCodeBlock.titleLine b :: TinyCodeBlock.bodyLines b /\
    opens b (title (currentCode st)) /\
    TinyCodeBlock.nextLine b = None /\
    Forall (fun a => TinyCodeBlock.nextLine a <> None) bs /\
    forall line, exists cur' b',
      step filter st line = Ok (mkLoop cur' (bs ++ [b'])) /\
      TinyCodeBlock.titleLine b' = TinyCodeBlock.titleLine b.
Proof.
  intros Hl Hin Hcol.
  destruct (loop_total filter pre) as (st0 & Hl0 & Hinv).
  rewrite Hl in Hl0. injection Hl0 as <-.
  unfold invariant in Hinv. rewrite Hin, Hcol in Hinv. cbn [andb] in Hinv.
  destruct Hinv as (bs & b & p1 & Hb & Hpre & Hc & Ho & _ & Hn).
  exists bs, b, p1. repeat split; auto; try apply Ho.
  - apply closedBlocks_wellFormed in Hc.
    eapply Forall_impl; [|exact Hc]. now intros a [_ Ha].
  - intros line. unfold step. rewrite Hin, Hcol, Hb, !updateLast_snoc.
    destruct (extractFromCodeBody (text line)
                (CodeTitle.indent (title (currentCode st))));
      cbn [negb bind]; eexists _, _; split; reflexivity.
Qed.

Lemma C10_witness :
  exists bs b p1,
    [TinyCodeBlock.mk (str "a.txt") (str "txt") (ln "1" "code:a.txt")
                      [ln "2" "  hello"] None] = bs ++ [b] /\
    [ln "1" "code:a.txt"; ln "2" "  hello"] =
    p1 ++ TinyCodeBlock.titleLine b :: TinyCodeBlock.bodyLines b /\
    opens b (CodeTitle.mk (str "a.txt") (str "txt") 0) /\
    TinyCodeBlock.nextLine b = None /\
    Forall (fun a => TinyCodeBlock.nextLine a <> None) bs /\
    forall line, exists cur' b',
      step None
           (mkLoop (mkCurrent true true (CodeTitle.mk (str "a.txt") (str "txt") 0))
                   [TinyCodeBlock.mk (str "a.txt") (str "txt")
                                     (ln "1" "code:a.txt")
                                     [ln "2" "  hello"] None])
           line = Ok (mkLoop cur' (bs ++ [b'])) /\
      TinyCodeBlock.titleLine b' = TinyCodeBlock.titleLine b.
Proof.
  apply (C10_last_block_is_current None
           [ln "1" "code:a.txt"; ln "2" "  hello"]
           (mkLoop (mkCurrent true true (CodeTitle.mk (str "a.txt") (str "txt") 0))
                   [TinyCodeBlock.mk (str "a.txt") (str "txt")
                                     (ln "1" "code:a.txt")
                                     [ln "2" "  hello"] None])).
  - vm_compute. reflexivity.
  - reflexivity.
  - reflexivity.
Defined.

(** * Further properties of the code *)

(** ** The output of [getCodeBlocks] *)

Lemma filter_filter (P Q : TinyCodeBlock.t -> bool) l :
  List.filter Q (List.filter P l) = List.filter (fun b => P b && Q b) l.
Proof.
  induction l as [|a l IH]; simpl; auto.
  destruct (P a); simpl; [destruct (Q a)|]; now rewrite IH.
Qed.

Lemma filter_ext_bool (P Q : TinyCodeBlock.t -> bool) l :
  (forall b, P b = Q b) -> List.filter P l = List.filter Q l.
Proof.
  intros H. induction l as [|a l IH]; simpl; auto. now rewrite H, IH.
Qed.

(** A filter with two fields is the conjunction of the filters with one
    of them. *)
Lemma isMatchFilter_fields ct fn lg :
  isMatchFilter ct (Some (mkFilter fn lg)) =
  isMatchFilter ct (Some (mkFilter fn None))
  && isMatchFilter ct (Some (mkFilter None lg)).
Proof.
  unfold isMatchFilter. cbn [filter_filename filter_lang truthy andb].
  destruct (truthy fn && differs fn (CodeTitle.fileName ct));
    destruct (truthy lg && differs lg (CodeTitle.lang ct)); reflexivity.
Qed.

Lemma closedBlocks_opens ls bs :
  closedBlocks ls bs ->
  Forall (fun b => exists ct, opens b ct /\ In (TinyCodeBlock.titleLine b) ls) bs.
Proof.
  induction 1 as [ls|pre bs b ct l rest Hc IH Ho Hb Hn Ht]; [constructor|].
  apply Forall_app. split.
  - eapply Forall_impl; [|exact IH]. intros a (ca & Ha & Hin).
    exists ca. split; auto. apply in_or_app. now left.
  - constructor; [|constructor]. exists ct. split; auto.
    apply in_or_app. right. now left.
Qed.

Lemma invariant_opens lines st :
  invariant lines st ->
  Forall (fun b => exists ct, opens b ct /\ In (TinyCodeBlock.titleLine b) lines)
         (codeBlocks st).
Proof.
  unfold invariant.
  destruct (isCodeBlock (currentCode st) && isCollect (currentCode st)).
  - intros (bs & b & p1 & -> & -> & Hc & Ho & _).
    apply Forall_app. split.
    + apply closedBlocks_opens in Hc.
      eapply Forall_impl; [|exact Hc]. intros a (ca & Ha & Hin).
      exists ca. split; auto. apply in_or_app. now left.
    + constructor; [|constructor]. eexists. split; [exact Ho|].
      apply in_or_app. right. now left.
  - apply closedBlocks_opens.
Qed.

Lemma closedBlocks_span ls bs :
  closedBlocks ls bs -> list_sum (map blockSpan bs) <= length ls.
Proof.
  induction 1 as [ls|pre bs b ct l rest Hc IH Ho Hb Hn Ht]; simpl; [lia|].
  rewrite map_app, list_sum_app, length_app. cbn [map list_sum length].
  rewrite length_app. cbn [length]. unfold blockSpan at 2. rewrite Hn.
  simpl. lia.
Qed.

Lemma invariant_span lines st :
  invariant lines st -> list_sum (map blockSpan (codeBlocks st)) <= length lines.
Proof.
  unfold invariant.
  destruct (isCodeBlock (currentCode st) && isCollect (currentCode st)).
  - intros (bs & b & p1 & -> & -> & Hc & _ & _ & Hn).
    apply closedBlocks_span in Hc.
    rewrite map_app, list_sum_app, length_app. cbn [map list_sum length].
    unfold blockSpan at 2. rewrite Hn. simpl. lia.
  - apply closedBlocks_span.
Qed.

Lemma list_sum_span_length (bs : list TinyCodeBlock.t) :
  length bs <= list_sum (map blockSpan bs).
Proof.
  induction bs as [|b bs IH]; [apply Nat.le_refl|].
  cbn [map list_sum length].
  assert (1 <= blockSpan b) by (unfold blockSpan; lia).
  change (list_sum (blockSpan b :: map blockSpan bs))
    with (blockSpan b + list_sum (map blockSpan bs)). lia.
Qed.

(** X1: the output under a filter is the output without a filter
    restricted, in the same order, to the blocks whose file name and
    language [isMatchFilter] accepts. *)
Theorem X1_filtered_output_is_restriction pull lines filter :
  exists unfiltered,
    getCodeBlocks pull (Lines lines) None = Some (Ok unfiltered) /\
    getCodeBlocks pull (Lines lines) filter =
    Some (Ok (List.filter (matchesBlock filter) unfiltered)).
Proof. apply getCodeBlocks_filter. Qed.

(** X2: every block of the output was opened by a line of the input
    that [extractFromCodeTitle] accepts; its file name and language are
    those of that title, and the title passes the filter. *)
Theorem X2_blocks_come_from_accepted_titles pull lines filter :
  exists blocks,
    getCodeBlocks pull (Lines lines) filter = Some (Ok blocks) /\
    Forall (fun b =>
              In (TinyCodeBlock.titleLine b) lines /\
              exists ct,
                extractFromCodeTitle (text (TinyCodeBlock.titleLine b)) = Some ct /\
                TinyCodeBlock.filename b = CodeTitle.fileName ct /\
                TinyCodeBlock.lang b = CodeTitle.lang ct /\
                isMatchFilter ct filter = true)
           blocks.
Proof.
  destruct (getCodeBlocks_lines pull lines filter) as (st & _ & Hinv & Hg).
  destruct (getCodeBlocks_filter pull lines filter) as (u & _ & Hf).
  exists (codeBlocks st). split; auto.
  rewrite Hg in Hf. injection Hf as Hf.
  apply invariant_opens in Hinv.
  rewrite Forall_forall in *. intros b Hb.
  destruct (Hinv b Hb) as (ct & (Ht & Hfn & Hlg) & Hin). split; auto.
  exists ct. repeat split; auto.
  rewrite Hf in Hb. apply filter_In in Hb as [_ Hm].
  now rewrite (matchesBlock_title filter b ct Hfn Hlg) in Hm.
Qed.

(** X3: the blocks of the output do not overlap in the input: the title
    lines, body lines and next lines of all the blocks together are no
    more than the lines of the input; so there are no more blocks than
    lines. *)
Theorem X3_blocks_do_not_overlap pull lines filter :
  exists blocks,
    getCodeBlocks pull (Lines lines) filter = Some (Ok blocks) /\
    list_sum (map blockSpan blocks) <= length lines /\
    length blocks <= length lines.
Proof.
  destruct (getCodeBlocks_lines pull lines filter) as (st & _ & Hinv & Hg).
  exists (codeBlocks st). split; auto.
  apply invariant_span in Hinv. split; auto.
  pose proof (list_sum_span_length (codeBlocks st)). lia.
Qed.

(** X5: the two fields of a filter compose: the output under a filter on
    file name and language is the output under the filter on the file
    name alone, restricted to the blocks that pass the filter on the
    language alone. *)
Theorem X5_filter_fields_compose pull lines fn lg :
  exists byName,
    getCodeBlocks pull (Lines lines) (Some (mkFilter fn None)) =
    Some (Ok byName) /\
    getCodeBlocks pull (Lines lines) (Some (mkFilter fn lg)) =
    Some (Ok (List.filter (matchesBlock (Some (mkFilter None lg))) byName)).
Proof.
  destruct (getCodeBlocks_filter pull lines (Some (mkFilter fn None)))
    as (u & Hu & Hn).
  destruct (getCodeBlocks_filter pull lines (Some (mkFilter fn lg)))
    as (u' & Hu' & Hb).
  rewrite Hu in Hu'. injection Hu' as <-.
  eexists. split; [exact Hn|]. rewrite Hb, filter_filter.
  f_equal. f_equal. apply filter_ext_bool. intros b.
  apply isMatchFilter_fields.
Qed.

(** X6: the body test is monotone in the title indentation: a line that
    ends a block ends every block with a deeper title, and a body line
    of a block is a body line under every shallower title. *)
Theorem X6_body_test_monotone (t : jsstring) (T T' : nat) :
  T <= T' ->
  (extractFromCodeBody t T = None -> extractFromCodeBody t T' = None) /\
  (extractFromCodeBody t T' <> None -> extractFromCodeBody t T <> None).
Proof.
  intros HT. rewrite !extractFromCodeBody_eq.
  destruct (forallb isDot (dropWhile isSpace t)); [|now split].
  destruct (Nat.leb_spec (length (takeWhile isSpace t)) T);
    destruct (Nat.leb_spec (length (takeWhile isSpace t)) T');
    split; try congruence; try discriminate; lia.
Qed.

Lemma X6_witness : extractFromCodeBody (str "  y") 4 = None.
Proof.
  refine (proj1 (X6_body_test_monotone (str "  y") 2 4 _) _).
  - lia.
  - vm_compute. reflexivity.
Defined.

(** ** Reading more lines *)

Lemma extendsBlock_refl b : extendsBlock b b.
Proof.
  unfold extendsBlock. repeat split; auto. exists []. now rewrite app_nil_r.
Qed.

Lemma extendsBlock_trans b b' b'' :
  extendsBlock b b' -> extendsBlock b' b'' -> extendsBlock b b''.
Proof.
  intros (Hf & Hl & Ht & (m1 & Hb) & Hn) (Hf' & Hl' & Ht' & (m2 & Hb') & Hn').
  unfold extendsBlock. repeat split; try congruence.
  - exists (m1 ++ m2). now rewrite Hb', Hb, app_assoc.
  - intros H. specialize (Hn H). subst b'. auto.
Qed.

Lemma extendsOutput_refl B : extendsOutput B B.
Proof.
  split; auto. intros i b Hb. exists b.
  split; [exact Hb|]. split; [apply extendsBlock_refl|reflexivity].
Qed.

Lemma extendsOutput_trans B B' B'' :
  extendsOutput B B' -> extendsOutput B' B'' -> extendsOutput B B''.
Proof.
  intros [Hl H] [Hl' H']. split; [lia|]. intros i b Hb.
  destruct (H i b Hb) as (b' & Hb' & He & Hs).
  destruct (H' i b' Hb') as (b'' & Hb'' & He' & Hs').
  exists b''. split; [exact Hb''|]. split.
  - eapply extendsBlock_trans; eauto.
  - intros Hi. rewrite Hs' by lia. auto.
Qed.

Lemma extendsOutput_push B b : extendsOutput B (B ++ [b]).
Proof.
  split; [rewrite length_app; simpl; lia|]. intros i a Ha. exists a.
  split; [|split; [apply extendsBlock_refl|reflexivity]].
  rewrite nth_error_app1; auto. apply nth_error_Some. congruence.
Qed.

Lemma extendsOutput_last bs b b' :
  extendsBlock b b' -> extendsOutput (bs ++ [b]) (bs ++ [b']).
Proof.
  intros He. split; [rewrite !length_app; simpl; lia|]. intros i a Ha.
  destruct (Nat.lt_ge_cases i (length bs)) as [Hi|Hi].
  - rewrite nth_error_app1 in Ha by auto. exists a.
    split; [|split; [apply extendsBlock_refl|reflexivity]].
    rewrite nth_error_app1; auto.
  - assert (Hlen : i < length (bs ++ [b]))
      by (apply nth_error_Some; congruence).
    rewrite length_app in Hlen. simpl in Hlen.
    assert (i = length bs) as -> by lia.
    rewrite nth_error_app2, Nat.sub_diag in Ha by auto.
    injection Ha as <-. exists b'.
    split; [|split; [exact He|]].
    + now rewrite nth_error_app2, Nat.sub_diag by auto.
    + rewrite length_app. simpl. lia.
Qed.

Lemma step_extends filter pre st line st' :
  invariant pre st ->
  step filter st line = Ok st' ->
  extendsOutput (codeBlocks st) (codeBlocks st').
Proof.
  destruct st as [[inBlock collect ct] blocks].
  unfold invariant, step.
  cbn [currentCode codeBlocks isCodeBlock isCollect title].
  destruct inBlock; cbn [andb].
  - destruct collect; cbn [negb].
    + intros (bs & b & p1 & -> & _ & _ & _ & _ & Hn).
      rewrite !updateLast_snoc.
      destruct (extractFromCodeBody (text line) (CodeTitle.indent ct));
        cbn [bind]; intros H; injection H as <-; cbn [codeBlocks];
        apply extendsOutput_last; unfold extendsBlock; cbn;
        repeat split; auto; try congruence.
      * now exists [line].
      * exists []. now rewrite app_nil_r.
    + intros _.
      destruct (extractFromCodeBody (text line) (CodeTitle.indent ct));
        cbn [bind]; intros H; injection H as <-; apply extendsOutput_refl.
  - intros _. destruct (extractFromCodeTitle (text line)) as [matched|].
    + cbn [isCollect title]. destruct (isMatchFilter matched filter);
        cbn [negb]; intros H; injection H as <-; cbn [codeBlocks].
      * apply extendsOutput_push.
      * apply extendsOutput_refl.
    + intros H; injection H as <-. apply extendsOutput_refl.
Qed.

Lemma loop_extends filter more : forall pre st st',
  invariant pre st ->
  loop filter st more = Ok st' ->
  extendsOutput (codeBlocks st) (codeBlocks st').
Proof.
  induction more as [|line more IH]; intros pre st st' Hinv; cbn [loop].
  - intros H. injection H as <-. apply extendsOutput_refl.
  - destruct (@step_invariant filter pre st line Hinv) as (st1 & Hs & Hinv1).
    rewrite Hs. cbn [bind]. intros Hl.
    eapply extendsOutput_trans.
    + eapply step_extends; eauto.
    + eapply IH; eauto.
Qed.

Lemma loop_app filter l1 l2 : forall st,
  loop filter st (l1 ++ l2) =
  bind (loop filter st l1) (fun st' => loop filter st' l2).
Proof.
  induction l1 as [|line l1 IH]; intros st; cbn [loop app bind]; auto.
  destruct (step filter st line); cbn [bind]; auto.
Qed.

(** X4: reading more lines never takes a block back: the output for
    [lines ++ more] has every block of the output for [lines]; the
    blocks but the last one are unchanged, and the last one keeps its
    title line, file name and language, and its body lines as the first
    of its body lines. *)
Theorem X4_more_lines_extend_the_output pull lines more filter :
  exists B B',
    getCodeBlocks pull (Lines lines) filter = Some (Ok B) /\
    getCodeBlocks pull (Lines (lines ++ more)) filter = Some (Ok B') /\
    extendsOutput B B'.
Proof.
  destruct (getCodeBlocks_lines pull lines filter) as (st & Hl & Hinv & Hg).
  destruct (getCodeBlocks_lines pull (lines ++ more) filter)
    as (st' & Hl' & _ & Hg').
  exists (codeBlocks st), (codeBlocks st').
  split; [exact Hg|]. split; [exact Hg'|].
  rewrite loop_app, Hl in Hl'. cbn [bind] in Hl'.
  eapply loop_extends; eauto.
Qed.

(** ** The layout of a title line *)

Lemma firstn_add {A : Type} (n m : nat) (u : list A) :
  firstn (n + m) u = firstn n u ++ firstn m (skipn n u).
Proof.
  revert u. induction n as [|n IH]; intros u; [reflexivity|].
  destruct u as [|a u]; simpl; [now rewrite firstn_nil|]. now rewrite IH.
Qed.

Lemma substring_app (inp : jsstring) (a b c : nat) :
  a <= b <= c ->
  substring inp a b ++ substring inp b c = substring inp a c.
Proof.
  intros H. unfold substring.
  replace (c - a) with ((b - a) + (c - b)) by lia.
  rewrite firstn_add, skipn_skipn.
  now replace (b - a + a) with b by lia.
Qed.

Lemma substring_empty (inp : jsstring) (a : nat) : substring inp a a = [].
Proof. unfold substring. now rewrite Nat.sub_diag. Qed.

Lemma in_run_codeColon (inp : jsstring) (s s' : mstate) :
  In s' (run inp codeColon s) ->
  substring inp (pos s) (pos s') = str "code:" /\
  pos s' = pos s + 5 /\ caps s' = caps s.
Proof.
  unfold codeColon, Chr. intros H.
  apply in_run_seq in H as (s1 & H1 & H).
  apply in_run_cls in H1 as (c1 & Hc1 & Hp1 & ->).
  apply in_run_seq in H as (s2 & H2 & H).
  apply in_run_cls in H2 as (c2 & Hc2 & Hp2 & ->).
  apply in_run_seq in H as (s3 & H3 & H).
  apply in_run_cls in H3 as (c3 & Hc3 & Hp3 & ->).
  apply in_run_seq in H as (s4 & H4 & H).
  apply in_run_cls in H4 as (c4 & Hc4 & Hp4 & ->).
  apply in_run_cls in H as (c5 & Hc5 & Hp5 & ->).
  cbn [pos caps] in *.
  apply N.eqb_eq in Hp1, Hp2, Hp3, Hp4, Hp5.
  simpl in Hp1, Hp2, Hp3, Hp4, Hp5. subst.
  split; [|split; [lia|reflexivity]].
  rewrite (substring_cons inp Hc1) by lia.
  rewrite (substring_cons inp Hc2) by lia.
  rewrite (substring_cons inp Hc3) by lia.
  rewrite (substring_cons inp Hc4) by lia.
  rewrite (substring_cons inp Hc5) by lia.
  now rewrite substring_empty.
Qed.

(** Every match of the title pattern reads: leading white space,
    "code:", group 2, group 3 when it took part, white space. *)
Lemma exec_titlePattern_layout (t : jsstring) (m : list (option jsstring)) :
  exec 3 titlePattern t = Some m ->
  exists g2 g3 sp,
    m = [Some t; Some (takeWhile isSpace t); Some g2; g3] /\
    t = takeWhile isSpace t ++ str "code:" ++ g2
        ++ match g3 with Some tag => tag | None => [] end ++ sp /\
    Forall (fun c => isSpace c = true) sp.
Proof.
  intros Hm.
  destruct (exec_titlePattern_shape _ Hm) as (g2 & g3 & Hshape & _).
  revert Hm. unfold titlePattern. rewrite exec_bol. intros H.
  apply matchAt_some_in in H as (s & Hs & Hcaps).
  apply in_run_seq in Hs as (s0 & H0 & Hs). apply in_run_bol in H0 as [_ ->].
  apply in_run_seq in Hs as (s1 & H1 & Hs).
  apply in_run_group in H1 as (s1' & H1 & ->).
  apply in_run_star_cls in H1 as [H1 Hc1]. cbn [pos caps repeat] in H1, Hc1.
  apply in_run_seq in Hs as (sl & Hl & Hs).
  apply in_run_codeColon in Hl as (Hcode & Hpl & Hcl). cbn [pos caps] in *.
  rewrite Hc1 in Hcl. cbn [setCap] in Hcl.
  apply in_run_seq in Hs as (s2 & H2 & Hs).
  apply in_run_group in H2 as (s2' & H2 & ->).
  apply in_run_seq in H2 as (sa & Ha & H2).
  apply in_run_cls in Ha as (ca & Hca & Hpa & ->).
  apply in_run_star_cls in H2 as [H2 Hc2]. cbn [pos caps] in H2, Hc2.
  rewrite Hcl in Hc2.
  apply in_run_seq in Hs as (s3 & H3 & Hs).
  apply in_run_seq in Hs as (s4 & H4 & Hs).
  apply in_run_star_cls in H4 as [H4 Hc4].
  apply in_run_eol in Hs as [He ->].
  assert (Hsp : Forall (fun c => isSpace c = true)
                       (substring t (pos s3) (pos s4)))
    by (apply runLen_Forall; exact H4).
  assert (Hsplit : forall c, pos s2' <= c -> c = pos s3 ->
            t = substring t 0 (pos s1') ++ str "code:"
                ++ substring t (pos sl) (pos s2')
                ++ substring t (pos s2') c ++ substring t c (pos s4)).
  { intros c Hle ->. rewrite <- Hcode.
    rewrite (@substring_app t (pos s2')) by lia.
    rewrite (@substring_app t (pos sl)) by lia.
    rewrite (@substring_app t (pos s1')) by lia.
    rewrite (@substring_app t 0) by lia.
    rewrite He. symmetry. apply substring_full. }
  rewrite Hc4 in Hcaps.
  apply in_run_opt in H3 as [[H3 Hadv]| ->].
  - apply in_run_group in H3 as (s3' & H3 & ->).
    apply in_run_seq in H3 as (sp & Hp & H3).
    apply in_run_cls in Hp as (cp & _ & _ & ->).
    apply in_run_seq in H3 as (sq & Hq & H3).
    apply in_run_seq in Hq as (sr & Hr & Hq).
    apply in_run_cls in Hr as (cr & _ & _ & ->).
    apply in_run_star_cls in Hq as [Hposq Hcq].
    apply in_run_cls in H3 as (cz & _ & _ & ->).
    cbn [pos caps] in *. rewrite Hcq, Hc2 in Hcaps. cbn [setCap] in Hcaps.
    rewrite Hshape in Hcaps. injection Hcaps as _ Hg1 Hg2 Hg3.
    exists g2, g3, (substring t (S (pos sq)) (pos s4)).
    split; [exact Hshape|]. split; [|exact Hsp].
    rewrite Hg1, Hg2, Hg3. apply Hsplit; auto. lia.
  - cbn [pos caps] in *. rewrite Hc2 in Hcaps. cbn [setCap] in Hcaps.
    rewrite Hshape in Hcaps. injection Hcaps as _ Hg1 Hg2 Hg3.
    exists g2, g3, (substring t (pos s2') (pos s4)).
    split; [exact Hshape|]. split; [|exact Hsp].
    rewrite Hg1, Hg2, Hg3.
    rewrite (Hsplit (pos s2')) at 1 by auto.
    now rewrite substring_empty.
Qed.

Lemma in_run_codeColon_intro (inp : jsstring) (s : mstate) :
  (forall i c, nth_error (str "code:") i = Some c ->
               nth_error inp (pos s + i) = Some c) ->
  In (MState (pos s + 5) (caps s)) (run inp codeColon s).
Proof.
  intros H.
  pose proof (H 0 _ eq_refl) as H0. pose proof (H 1 _ eq_refl) as H1.
  pose proof (H 2 _ eq_refl) as H2. pose proof (H 3 _ eq_refl) as H3.
  pose proof (H 4 _ eq_refl) as H4.
  rewrite Nat.add_0_r in H0.
  replace (pos s + 1) with (S (pos s)) in H1 by lia.
  replace (pos s + 2) with (S (S (pos s))) in H2 by lia.
  replace (pos s + 3) with (S (S (S (pos s)))) in H3 by lia.
  replace (pos s + 4) with (S (S (S (S (pos s))))) in H4 by lia.
  replace (pos s + 5) with (S (S (S (S (S (pos s)))))) by lia.
  unfold codeColon, Chr.
  apply in_run_seq. eexists. split.
  { apply in_run_cls. eexists. split; [exact H0|]. split; reflexivity. }
  apply in_run_seq. eexists. split.
  { apply in_run_cls. eexists. split; [exact H1|]. split; reflexivity. }
  apply in_run_seq. eexists. split.
  { apply in_run_cls. eexists. split; [exact H2|]. split; reflexivity. }
  apply in_run_seq. eexists. split.
  { apply in_run_cls. eexists. split; [exact H3|]. split; reflexivity. }
  apply in_run_cls. eexists. split; [exact H4|]. split; reflexivity.
Qed.

Lemma dropWhile_none (p : char -> bool) (s : jsstring) :
  Forall (fun c => p c = false) s -> dropWhile p s = s.
Proof. intros H. destruct H as [|c s Hc _]; simpl; auto. now rewrite Hc. Qed.

Lemma trim_no_space (s : jsstring) :
  Forall (fun c => isSpace c = false) s -> trim s = s.
Proof.
  intros H. unfold trim. rewrite (dropWhile_none _ _ H).
  rewrite dropWhile_none by now apply Forall_rev. apply rev_involutive.
Qed.

Lemma nth_error_app_skip {A : Type} (l r : list A) (i : nat) :
  nth_error (l ++ r) (length l + i) = nth_error r i.
Proof.
  rewrite nth_error_app2 by lia. f_equal. lia.
Qed.

Lemma isSpace_false_isDot (c : char) : isSpace c = false -> isDot c = true.
Proof.
  unfold isSpace, isDot. intros H. apply orb_false_iff in H as [_ H].
  now rewrite H.
Qed.

Lemma exec_titlePattern_matchAt (t : jsstring) :
  exec 3 titlePattern t = matchAt t 3 titlePattern 0.
Proof. unfold titlePattern. apply exec_bol. Qed.

(** A line made of white space, "code:" and a name that holds no white
    space and does not end in ")" matches the title pattern in one way
    only: group 2 is the name, and group 3 takes no part. *)
Lemma exec_titlePattern_plain (ws name : jsstring) :
  Forall (fun c => isSpace c = true) ws ->
  name <> [] ->
  Forall (fun c => isSpace c = false) name ->
  (forall pre, name <> pre ++ [41%N]) ->
  exec 3 titlePattern (ws ++ str "code:" ++ name) =
  Some [Some (ws ++ str "code:" ++ name); Some ws; Some name; None].
Proof.
  intros Hws Hne Hname Hparen. set (t := ws ++ str "code:" ++ name).
  assert (Htake : takeWhile isSpace t = ws).
  { unfold t. apply takeWhile_app_stop; auto.
    intros c Hc. injection Hc as <-. reflexivity. }
  assert (Hlen : length t = length ws + 5 + length name).
  { unfold t. rewrite !length_app. simpl. lia. }
  assert (Hn : 1 <= length name) by (destruct name; [congruence|simpl; lia]).
  assert (Hdots : Forall (fun c => isDot c = true) name).
  { eapply Forall_impl; [|exact Hname]. apply isSpace_false_isDot. }
  (* some match exists *)
  assert (Hex : exists m, exec 3 titlePattern t = Some m).
  { rewrite exec_titlePattern_matchAt. unfold matchAt. cbn [repeat].
    destruct (run t titlePattern (MState 0 [None; None; None; None]))
      as [|s l] eqn:Hrun;
      [|eauto].
    exfalso.
    assert (Hin : In (MState (length t)
                        (setCap 2 (Some (substring t (length ws + 5) (length t)))
                           (setCap 1 (Some (substring t 0 (length ws)))
                                   [None; None; None; None])))
                     (run t titlePattern (MState 0 [None; None; None; None])));
      [|rewrite Hrun in Hin; exact Hin].
    unfold titlePattern.
    apply in_run_seq. eexists. split; [apply in_run_bol; split; reflexivity|].
    apply in_run_seq. eexists. split.
    { apply in_run_group. exists (MState (length ws) [None; None; None; None]).
      split; [|reflexivity]. apply in_run_star_cls. cbn [pos caps].
      rewrite runLen_0, Htake. split; [lia|reflexivity]. }
    cbn [pos caps].
    apply in_run_seq. eexists. split.
    { apply in_run_codeColon_intro. cbn [pos]. intros i c Hc.
      unfold t. rewrite nth_error_app_skip.
      rewrite nth_error_app1; auto. apply nth_error_Some. congruence. }
    cbn [pos caps].
    assert (Hat : forall i, nth_error t (length ws + 5 + i) = nth_error name i).
    { intros i. unfold t. rewrite <- Nat.add_assoc, nth_error_app_skip.
      apply (nth_error_app_skip (str "code:") name i). }
    apply in_run_seq. eexists. split.
    { apply in_run_group.
      exists (MState (length t)
                [None; Some (substring t 0 (length ws)); None; None]).
      split; [|reflexivity].
      unfold Plus. apply in_run_seq.
      destruct name as [|c0 name'] eqn:En; [congruence|].
      exists (MState (S (length ws + 5))
                [None; Some (substring t 0 (length ws)); None; None]).
      split.
      - apply in_run_cls. exists c0. cbn [pos caps].
        split; [|split; [|reflexivity]].
        + rewrite <- (Nat.add_0_r (length ws + 5)), Hat. reflexivity.
        + now inversion Hdots.
      - apply in_run_star_cls. cbn [pos caps]. split; [|reflexivity].
        split; [simpl in Hlen; lia|].
        apply runLen_max; [simpl in Hlen; lia|].
        unfold substring.
        assert (Hsk : skipn (S (length ws + 5)) t = name').
        { unfold t. replace (S (length ws + 5)) with (length ws + 6) by lia.
          rewrite skipn_app, skipn_all2 by lia.
          replace (length ws + 6 - length ws) with 6 by lia. reflexivity. }
        rewrite Hsk, firstn_all2 by (simpl in Hlen; lia).
        now inversion Hdots. }
    cbn [pos caps].
    apply in_run_seq. eexists. split; [apply in_run_opt; right; reflexivity|].
    apply in_run_seq. eexists. split.
    { apply in_run_star_cls. split; [|reflexivity]. cbn [pos].
      split; [apply Nat.le_refl|apply Nat.le_add_r]. }
    apply in_run_eol. split; reflexivity. }
  destruct Hex as (m & Hm). rewrite Hm.
  destruct (exec_titlePattern_shape _ Hm) as (g2 & g3 & Hshape & _ & _ & Htag).
  destruct (exec_titlePattern_layout _ _ Hm)
    as (g2' & g3' & sp & Hshape' & Ht & Hsp).
  rewrite Hshape in Hshape'. injection Hshape' as <- <-.
  rewrite Htake in Ht. unfold t in Ht.
  apply app_inv_head in Ht. apply app_inv_head in Ht.
  (* the trailing white space and the tag are parts of the name *)
  assert (sp = []) as ->.
  { destruct sp as [|c sp] using rev_ind; auto.
    apply Forall_app in Hsp as [_ Hc]. apply Forall_inv in Hc as Hc'.
    assert (In c name).
    { rewrite Ht. apply in_or_app. right. apply in_or_app. right.
      apply in_or_app. right. now left. }
    rewrite Forall_forall in Hname. rewrite (Hname c H) in Hc'. discriminate. }
  rewrite app_nil_r in Ht.
  destruct g3 as [tag|].
  - destruct (Htag tag eq_refl) as (inner & ->).
    exfalso. apply (Hparen (g2 ++ 40%N :: inner)).
    rewrite Ht. rewrite <- app_assoc. reflexivity.
  - rewrite app_nil_r in Ht. subst g2. rewrite Hshape, Htake. reflexivity.
Qed.

(** X7: a line that [extractFromCodeTitle] accepts reads: its leading
    white space, "code:", a name that is not empty and holds no line
    terminator, a tag or nothing, white space.  The indentation is the
    length of the leading white space, the file name is the trimmed
    name, and the tag, when there is one, starts with "(", ends with ")"
    and is the language as it is.  Any other line is rejected. *)
Theorem X7_layout_of_a_title_line (t : jsstring) (ct : CodeTitle.t) :
  extractFromCodeTitle t = Some ct ->
  exists name tag sp,
    t = takeWhile isSpace t ++ str "code:" ++ name ++ tag ++ sp /\
    name <> [] /\
    Forall (fun c => isLineTerminator c = false) name /\
    Forall (fun c => isSpace c = true) sp /\
    CodeTitle.fileName ct = trim name /\
    CodeTitle.indent ct = wsLen t /\
    (tag = [] \/
     (CodeTitle.lang ct = tag /\ exists inner, tag = 40%N :: inner ++ [41%N])).
Proof.
  intros H. pose proof (extractFromCodeTitle_indent _ H) as Hind.
  revert H. unfold extractFromCodeTitle.
  destruct (exec 3 titlePattern t) as [m|] eqn:Hm; [|discriminate].
  destruct (exec_titlePattern_shape _ Hm)
    as (g2 & g3 & Hshape & Hne & Hdots & Htag).
  destruct (exec_titlePattern_layout _ _ Hm)
    as (g2' & g3' & sp & Hshape' & Ht & Hsp).
  rewrite Hshape in Hshape'. injection Hshape' as <- <-.
  rewrite Hshape. cbn [nth group]. intros H.
  exists g2, (match g3 with Some tag => tag | None => [] end), sp.
  split; [exact Ht|]. split; [exact Hne|]. split.
  { eapply Forall_impl; [|exact Hdots]. intros c Hc. unfold isDot in Hc.
    now destruct (isLineTerminator c). }
  split; [exact Hsp|].
  assert (Hfn : CodeTitle.fileName ct = trim g2).
  { destruct g3 as [tag|].
    - now injection H as <-.
    - destruct (exec 1 extPattern (trim g2)) as [ext|].
      + destruct (JS.eqb (group ext 1) []); [discriminate|].
        now injection H as <-.
      + now injection H as <-. }
  split; [exact Hfn|]. split; [exact Hind|].
  destruct g3 as [tag|]; [right|now left].
  injection H as <-. split; auto.
Qed.

Lemma X7_witness :
  exists name tag sp,
    str "  code:b(js)" =
    takeWhile isSpace (str "  code:b(js)") ++ str "code:" ++ name ++ tag ++ sp /\
    name <> [] /\
    Forall (fun c => isLineTerminator c = false) name /\
    Forall (fun c => isSpace c = true) sp /\
    str "b" = trim name /\
    2 = wsLen (str "  code:b(js)") /\
    (tag = [] \/
     (str "(js)" = tag /\ exists inner, tag = 40%N :: inner ++ [41%N])).
Proof.
  apply (X7_layout_of_a_title_line (str "  code:b(js)")
           (CodeTitle.mk (str "b") (str "(js)") 2)).
  vm_compute. reflexivity.
Defined.

(** X8: a line made of white space, "code:" and a name that is not
    empty, holds no white space and does not end in ")" is a title
    unless the name ends in a dot that is not its first unit; the
    indentation is the length of the white space, the file name is the
    name, and the language is the name, or what follows its last dot
    when a dot comes after the first unit. *)
Theorem X8_plain_title_line (ws name : jsstring) :
  Forall (fun c => isSpace c = true) ws ->
  name <> [] ->
  Forall (fun c => isSpace c = false) name ->
  (forall pre, name <> pre ++ [41%N]) ->
  let t := ws ++ str "code:" ++ name in
  ((forall j, nth_error name (S j) <> Some dot) ->
   extractFromCodeTitle t = Some (CodeTitle.mk name name (length ws))) /\
  (forall stem, stem <> [] -> name = stem ++ [dot] ->
     extractFromCodeTitle t = None) /\
  (forall stem ext, stem <> [] -> ext <> [] -> ~ In dot ext ->
     name = stem ++ dot :: ext ->
     extractFromCodeTitle t = Some (CodeTitle.mk name ext (length ws))).
Proof.
  intros Hws Hne Hname Hparen t.
  pose proof (exec_titlePattern_plain ws name Hws Hne Hname Hparen) as Hm.
  fold t in Hm.
  destruct (@extractFromCodeTitle_untagged t _ Hm eq_refl) as (H1 & H2 & H3).
  cbn [group nth] in H1, H2, H3.
  rewrite (trim_no_space name Hname) in H1, H2, H3.
  assert (Htake : length (takeWhile isSpace t) = length ws).
  { f_equal. unfold t. apply takeWhile_app_stop; auto.
    intros c Hc. injection Hc as <-. reflexivity. }
  rewrite Htake in H1, H3. auto.
Qed.

Lemma X8_witness :
  extractFromCodeTitle (str "  code:main.rs") =
  Some (CodeTitle.mk (str "main.rs") (str "rs") 2).
Proof.
  refine (proj2 (proj2 (X8_plain_title_line (str "  ") (str "main.rs")
                          _ _ _ _)) (str "main") (str "rs") _ _ _ _).
  - vm_compute. repeat constructor.
  - discriminate.
  - vm_compute. repeat constructor.
  - intros pre H. apply (f_equal (@rev N)) in H.
    rewrite rev_app_distr in H. vm_compute in H. discriminate.
  - discriminate.
  - discriminate.
  - vm_compute. intros [H|[H|[]]]; discriminate.
  - reflexivity.
Defined.

(** ** Line lookup *)

Lemma findIndexFrom_range (f : Line -> bool) (lines : list Line) (i : Z) :
  Node.findIndexFrom f lines i = (-1)%Z \/
  (i <= Node.findIndexFrom f lines i < i + Z.of_nat (length lines))%Z.
Proof.
  revert i. induction lines as [|l lines IH]; intros i; [now left|].
  cbn [Node.findIndexFrom length]. destruct (f l).
  - right. lia.
  - destruct (IH (i + 1)%Z) as [H|H]; [now left|right; lia].
Qed.

(** [find] gives the element at the index that [findIndex] gives. *)
Lemma find_findIndexFrom (f : Line -> bool) (lines : list Line) (i : Z) :
  (0 <= i)%Z ->
  find f lines =
  if (Node.findIndexFrom f lines i <? 0)%Z then None
  else nth_error lines (Z.to_nat (Node.findIndexFrom f lines i - i)).
Proof.
  revert i. induction lines as [|l lines IH]; intros i Hi; [reflexivity|].
  cbn [find Node.findIndexFrom]. destruct (f l).
  - destruct (Z.ltb_spec i 0); [lia|]. now rewrite Z.sub_diag.
  - rewrite (IH (i + 1)%Z) by lia.
    destruct (findIndexFrom_range f lines (i + 1)) as [H|H].
    + now rewrite H.
    + destruct (Z.ltb_spec (Node.findIndexFrom f lines (i + 1)) 0); [lia|].
      replace (Z.to_nat (Node.findIndexFrom f lines (i + 1) - i))
        with (S (Z.to_nat (Node.findIndexFrom f lines (i + 1) - (i + 1))))
        by lia.
      reflexivity.
Qed.

Lemma find_findIndex (f : Line -> bool) (lines : list Line) :
  find f lines = Node.index lines (Node.findIndex f lines).
Proof.
  unfold Node.index, Node.findIndex.
  rewrite (find_findIndexFrom f lines 0) by lia. now rewrite Z.sub_0_r.
Qed.

Lemma findIndexFrom_none (f : Line -> bool) (lines : list Line) (i : Z) :
  (forall l, In l lines -> f l = false) ->
  Node.findIndexFrom f lines i = (-1)%Z.
Proof.
  revert i. induction lines as [|l lines IH]; intros i H; [reflexivity|].
  cbn [Node.findIndexFrom]. rewrite (H l (or_introl eq_refl)).
  apply IH. intros l' Hl'. apply H. now right.
Qed.

Lemma findIndexFrom_first (f : Line -> bool) (lines : list Line) (n : nat) :
  forall (i : Z) (l : Line),
  nth_error lines n = Some l -> f l = true ->
  (forall j l', j < n -> nth_error lines j = Some l' -> f l' = false) ->
  Node.findIndexFrom f lines i = (i + Z.of_nat n)%Z.
Proof.
  revert n. induction lines as [|a lines IH]; intros [|n] i l Hn Hf Hfirst;
    try discriminate.
  - simpl in Hn. injection Hn as ->. cbn [Node.findIndexFrom].
    rewrite Hf. lia.
  - cbn [Node.findIndexFrom].
    rewrite (Hfirst 0 a) by (simpl; auto; lia).
    rewrite (IH n (i + 1)%Z l Hn Hf); [lia|].
    intros j l' Hj Hl'. apply (Hfirst (S j) l'); [lia|exact Hl'].
Qed.

Lemma sameId_true (i : jsstring) (l : Line) :
  Node.sameId i l = true <-> id l = i.
Proof. unfold Node.sameId. apply eqb_eq. Qed.

Lemma sameId_false (i : jsstring) (l : Line) :
  id l <> i -> Node.sameId i l = false.
Proof.
  intros H. destruct (Node.sameId i l) eqn:E; auto.
  apply sameId_true in E. congruence.
Qed.

Lemma getLine_via_getLineNo (lines : list Line) (value : Node.Value) :
  Node.getLine (Some lines) value =
  bind (Node.getLineNo (Some lines) value)
       (fun n => match n with
                 | None => Ok None
                 | Some n => Node.getLine (Some lines) (Node.VNumber n)
                 end).
Proof.
  assert (H : forall i,
    Node.ifTruthy i
      (fun i' => bind (Node.getLines (Some lines))
                      (fun ls => Ok (find (Node.sameId i') ls)))
      (Ok None) =
    bind (Node.ifTruthy i
            (fun i' => bind (Node.getLines (Some lines))
                         (fun ls => Ok (Some (Node.findIndex (Node.sameId i') ls))))
            (Ok (Some (-1)%Z)))
         (fun n => match n with
                   | None => Ok None
                   | Some n => Node.getLine (Some lines) (Node.VNumber n)
                   end)).
  { intros [[|c r]|]; cbn; try reflexivity. now rewrite find_findIndex. }
  destruct value as [|n|s|e]; try reflexivity.
  - cbn [Node.getLine Node.getLineNo Node.getLineId bind]. apply H.
  - cbn [Node.getLine Node.getLineNo Node.getLineId].
    destruct (Node.contains (Node.classList e) (str "line")); cbn [bind];
      [apply H|].
    destruct (Node.closestLine e); cbn [bind]; apply H.
Qed.

(** X9: on an open page, looking a line up by any value is looking it
    up by the line number that [getLineNo] gives for this value. *)
Theorem X9_getLine_goes_through_getLineNo (lines : list Line)
        (value : Node.Value) :
  Node.getLine (Some lines) value =
  bind (Node.getLineNo (Some lines) value)
       (fun n => match n with
                 | None => Ok None
                 | Some n => Node.getLine (Some lines) (Node.VNumber n)
                 end).
Proof. apply getLine_via_getLineNo. Qed.

(** X10: on a page, for a line whose id is not empty, does not start
    with "L" and is the id of no earlier line: the line number gives the
    id, and the id, with or without a leading "L", gives back the line
    number and the line. *)
Theorem X10_number_id_round_trip (lines : list Line) (n : nat) (l : Line) :
  nth_error lines n = Some l ->
  id l <> [] ->
  Node.startsWithL (id l) = false ->
  (forall j l', j < n -> nth_error lines j = Some l' -> id l' <> id l) ->
  Node.getLineId (Some lines) (Node.VNumber (Z.of_nat n)) = Ok (Some (id l)) /\
  Node.getLineNo (Some lines) (Node.VString (id l)) = Ok (Some (Z.of_nat n)) /\
  Node.getLineNo (Some lines) (Node.VString (76%N :: id l)) =
  Ok (Some (Z.of_nat n)) /\
  Node.getLine (Some lines) (Node.VString (id l)) = Ok (Some l).
Proof.
  intros Hn He HL Hfirst.
  assert (Hidx : Node.findIndex (Node.sameId (id l)) lines = Z.of_nat n).
  { unfold Node.findIndex.
    rewrite (findIndexFrom_first (Node.sameId (id l)) lines n 0 l); auto.
    - now apply sameId_true.
    - intros j l' Hj Hl'. apply sameId_false. eauto. }
  assert (Hfind : find (Node.sameId (id l)) lines = Some l).
  { rewrite find_findIndex, Hidx. unfold Node.index.
    destruct (Z.ltb_spec (Z.of_nat n) 0); [lia|]. now rewrite Nat2Z.id. }
  split; [|split; [|split]].
  - cbn. unfold Node.index.
    destruct (Z.ltb_spec (Z.of_nat n) 0); [lia|]. now rewrite Nat2Z.id, Hn.
  - cbn [Node.getLineNo Node.getLineId bind]. rewrite HL.
    destruct (id l) as [|c r] eqn:E; [congruence|]. cbn. now rewrite Hidx.
  - cbn [Node.getLineNo Node.getLineId bind Node.startsWithL].
    rewrite N.eqb_refl. cbn [slice skipn].
    destruct (id l) as [|c r] eqn:E; [congruence|]. cbn. now rewrite Hidx.
  - cbn [Node.getLine Node.getLineId bind]. rewrite HL.
    destruct (id l) as [|c r] eqn:E; [congruence|]. cbn. now rewrite Hfind.
Qed.

Lemma X10_witness :
  Node.getLineId (Some scenario1) (Node.VNumber 2) = Ok (Some (str "3")) /\
  Node.getLineNo (Some scenario1) (Node.VString (str "3")) = Ok (Some 2%Z) /\
  Node.getLineNo (Some scenario1) (Node.VString (str "L3")) = Ok (Some 2%Z) /\
  Node.getLine (Some scenario1) (Node.VString (str "3")) =
  Ok (Some (ln "3" "  world")).
Proof.
  refine (X10_number_id_round_trip scenario1 2 (ln "3" "  world") _ _ _ _).
  - reflexivity.
  - discriminate.
  - reflexivity.
  - intros j l' Hj Hl'.
    destruct j as [|[|j]]; [| |lia]; injection Hl' as <-; discriminate.
Defined.

(** X11: on a page, a string that, once a leading "L" is taken off, is
    empty or is the id of no line has the line number -1 and no line;
    its next line is then the first line of the page, and it has no
    previous line. *)
Theorem X11_unknown_id (lines : list Line) (s : jsstring) :
  let i := if Node.startsWithL s then slice s 1 else s in
  (i = [] \/ forall l, In l lines -> id l <> i) ->
  Node.getLineNo (Some lines) (Node.VString s) = Ok (Some (-1)%Z) /\
  Node.getLine (Some lines) (Node.VString s) = Ok None /\
  Node.getNextLine (Some lines) (Node.VString s) = Ok (hd_error lines) /\
  Node.getPrevLine (Some lines) (Node.VString s) = Ok None.
Proof.
  intros i Hi.
  assert (Hno : Node.getLineNo (Some lines) (Node.VString s) = Ok (Some (-1)%Z)).
  { cbn [Node.getLineNo Node.getLineId bind]. fold i.
    destruct Hi as [->|Hi]; [reflexivity|].
    destruct i as [|c r]; [reflexivity|]. cbn. unfold Node.findIndex.
    rewrite findIndexFrom_none; auto.
    intros l Hl. apply sameId_false. auto. }
  split; [exact Hno|]. split; [|split].
  - rewrite getLine_via_getLineNo, Hno. reflexivity.
  - unfold Node.getNextLine. rewrite Hno. cbn. now destruct lines.
  - unfold Node.getPrevLine. rewrite Hno. reflexivity.
Qed.

Lemma X11_witness :
  Node.getLineNo (Some scenario1) (Node.VString (str "L9")) = Ok (Some (-1)%Z) /\
  Node.getLine (Some scenario1) (Node.VString (str "L9")) = Ok None /\
  Node.getNextLine (Some scenario1) (Node.VString (str "L9")) =
  Ok (Some (ln "1" "code:a.txt")) /\
  Node.getPrevLine (Some scenario1) (Node.VString (str "L9")) = Ok None.
Proof.
  apply (X11_unknown_id scenario1 (str "L9")). right.
  intros l [<-|[<-|[<-|[<-|[]]]]]; discriminate.
Defined.

(** X12: on a page, for a line whose id is not empty, does not start
    with "L" and is the id of no earlier line, the next line of the id
    is the line that follows it, and its previous line is the line
    before it; the first line has no previous line and the last one no
    next line. *)
Theorem X12_neighbours_by_id (lines : list Line) (n : nat) (l : Line) :
  nth_error lines n = Some l ->
  id l <> [] ->
  Node.startsWithL (id l) = false ->
  (forall j l', j < n -> nth_error lines j = Some l' -> id l' <> id l) ->
  Node.getNextLine (Some lines) (Node.VString (id l)) =
  Ok (nth_error lines (S n)) /\
  Node.getPrevLine (Some lines) (Node.VString (id l)) =
  Ok (match n with 0 => None | S m => nth_error lines m end).
Proof.
  intros Hn He HL Hfirst.
  assert (Hno : Node.getLineNo (Some lines) (Node.VString (id l)) =
                Ok (Some (Z.of_nat n))).
  { cbn [Node.getLineNo Node.getLineId bind]. rewrite HL.
    destruct (id l) as [|c r] eqn:E; [congruence|]. cbn.
    unfold Node.findIndex.
    rewrite (findIndexFrom_first (Node.sameId (c :: r)) lines n 0 l); auto.
    - now apply sameId_true.
    - intros j l' Hj Hl'. apply sameId_false. eauto. }
  unfold Node.getNextLine, Node.getPrevLine. rewrite Hno.
  cbn [bind Node.getLine Node.getLineByNumber Node.getLines]. unfold Node.index.
  split.
  - destruct (Z.ltb_spec (Z.of_nat n + 1) 0); [lia|].
    now replace (Z.to_nat (Z.of_nat n + 1)) with (S n) by lia.
  - destruct n as [|m].
    + reflexivity.
    + destruct (Z.ltb_spec (Z.of_nat (S m) - 1) 0); [lia|].
      now replace (Z.to_nat (Z.of_nat (S m) - 1)) with m by lia.
Qed.

Lemma X12_witness :
  Node.getNextLine (Some scenario1) (Node.VString (str "2")) =
  Ok (Some (ln "3" "  world")) /\
  Node.getPrevLine (Some scenario1) (Node.VString (str "2")) =
  Ok (Some (ln "1" "code:a.txt")).
Proof.
  refine (X12_neighbours_by_id scenario1 1 (ln "2" "  hello") _ _ _ _).
  - reflexivity.
  - discriminate.
  - reflexivity.
  - intros j l' Hj Hl'.
    destruct j as [|j]; [|lia]. injection Hl' as <-. discriminate.
Defined.

Lemma closestLine_self (e : Node.HTMLElement) :
  Node.contains (Node.classList e) (str "line") = true ->
  Node.closestLine e = Some e.
Proof.
  destruct e; cbn [Node.classList Node.closestLine]; intros H;
    rewrite H; reflexivity.
Qed.

(** X13: a DOM element that is a line element or lies inside one is
    looked up like the DOM id of that line element, as long as this id
    starts with "L": same line id, same line number, same line. *)
Theorem X13_element_like_its_line_id (Page_lines : option (list Line))
        (e line : Node.HTMLElement) :
  Node.closestLine e = Some line ->
  Node.startsWithL (Node.elementId line) = true ->
  Node.getLineId Page_lines (Node.VElement e) =
  Node.getLineId Page_lines (Node.VString (Node.elementId line)) /\
  Node.getLineNo Page_lines (Node.VElement e) =
  Node.getLineNo Page_lines (Node.VString (Node.elementId line)) /\
  Node.getLine Page_lines (Node.VElement e) =
  Node.getLine Page_lines (Node.VString (Node.elementId line)).
Proof.
  intros Hc HL.
  assert (Hid : Node.getLineId Page_lines (Node.VElement e) =
                Node.getLineId Page_lines (Node.VString (Node.elementId line))).
  { cbn [Node.getLineId]. rewrite HL.
    destruct (Node.contains (Node.classList e) (str "line")) eqn:E.
    - rewrite (closestLine_self e E) in Hc. now injection Hc as <-.
    - now rewrite Hc. }
  split; [exact Hid|].
  unfold Node.getLineNo, Node.getLine. now rewrite Hid.
Qed.

Lemma X13_witness :
  Node.getLineId (Some scenario1)
    (Node.VElement
       (Node.Attached [str "char-index"; str "c-0"] []
          (Node.Detached [str "line"] (str "L2")))) =
  Node.getLineId (Some scenario1) (Node.VString (str "L2")).
Proof.
  refine (proj1 (X13_element_like_its_line_id (Some scenario1)
                   (Node.Attached [str "char-index"; str "c-0"] []
                      (Node.Detached [str "line"] (str "L2")))
                   (Node.Detached [str "line"] (str "L2")) _ _)).
  - vm_compute. reflexivity.
  - reflexivity.
Defined.

(** ** More on the output and on the filter *)

(** X14: only the last block of the output can lack its next line:
    every block that is followed by another one in the output has a
    next line. *)
Theorem X14_only_last_block_open pull lines filter :
  exists blocks,
    getCodeBlocks pull (Lines lines) filter = Some (Ok blocks) /\
    forall bs b rest,
      blocks = bs ++ b :: rest -> rest <> [] ->
      TinyCodeBlock.nextLine b <> None.
Proof.
  destruct (getCodeBlocks_lines pull lines filter) as (st & _ & Hinv & Hg).
  exists (codeBlocks st). split; auto.
  assert (Hclosed : exists init,
            Forall (fun a => TinyCodeBlock.nextLine a <> None) init /\
            (codeBlocks st = init \/ exists x, codeBlocks st = init ++ [x])).
  { unfold invariant in Hinv.
    destruct (isCodeBlock (currentCode st) && isCollect (currentCode st)).
    - destruct Hinv as (bs & b & p1 & Hb & _ & Hc & _).
      exists bs. split; [|right; eauto].
      apply closedBlocks_wellFormed in Hc.
      eapply Forall_impl; [|exact Hc]. now intros a [_ Ha].
    - exists (codeBlocks st). split; [|now left].
      apply closedBlocks_wellFormed in Hinv.
      eapply Forall_impl; [|exact Hinv]. now intros a [_ Ha]. }
  destruct Hclosed as (init & Hall & Hshape).
  intros bs b rest Hb Hrest. rewrite Forall_forall in Hall. apply Hall.
  destruct Hshape as [<-|(x & Hx)].
  - rewrite Hb. apply in_or_app. right. now left.
  - rewrite Hb in Hx.
    destruct rest as [|r rest] using rev_ind; [congruence|].
    change (bs ++ b :: rest ++ [r]) with (bs ++ (b :: rest) ++ [r]) in Hx.
    rewrite app_assoc in Hx. apply app_inj_tail in Hx as [<- _].
    apply in_or_app. right. now left.
Qed.

Lemma X14_witness :
  TinyCodeBlock.nextLine
    (TinyCodeBlock.mk (str "a.js") (str "js") (ln "1" "code:a.js")
                      [ln "2" " x"] (Some (ln "3" "end"))) <> None.
Proof.
  destruct (X14_only_last_block_open noPull twoBlocks None) as (blocks & Hg & H).
  apply (H [] _ [TinyCodeBlock.mk (str "b.py") (str "py") (ln "4" "code:b.py")
                                  [ln "5" " y"] None]).
  - vm_compute in Hg. injection Hg as <-. reflexivity.
  - discriminate.
Defined.

(** X15: a filter none of whose fields is the empty string accepts a
    title exactly when each field that is present is equal to the file
    name, or to the language, of the title. *)
Theorem X15_filter_is_exact_match (ct : CodeTitle.t) (f : GetCodeBlocksFilter) :
  filter_filename f <> Some [] -> filter_lang f <> Some [] ->
  (isMatchFilter ct (Some f) = true <->
   (forall s, filter_filename f = Some s -> s = CodeTitle.fileName ct) /\
   (forall s, filter_lang f = Some s -> s = CodeTitle.lang ct)).
Proof. apply isMatchFilter_exact. Qed.

Lemma X15_witness :
  isMatchFilter (CodeTitle.mk (str "a.py") (str "py") 0)
                (Some (mkFilter None (Some (str "py")))) = true <->
  (forall s, None = Some s -> s = str "a.py") /\
  (forall s, Some (str "py") = Some s -> s = str "py").
Proof.
  apply (X15_filter_is_exact_match (CodeTitle.mk (str "a.py") (str "py") 0)
           (mkFilter None (Some (str "py")))); discriminate.
Defined.
